(** * Live-Speech-Translator: the session state machine of [server/app.py]

    A shallow embedding of the Flask service in [server/app.py]: the
    language-code normalisers, the shared session record [state], the
    background worker [listen_and_translate], the control routes [start],
    [stop] and [status], and the static-file route [serve_static_file].

    Threads are modelled by interleaving: a system state holds the shared
    record, the pool of workers ever spawned (each with a program point),
    the store of [threading.Event] flags, and the program point of the
    control plane.  A transition is one stretch of code between two points
    at which another thread can be observed to run: a block under
    [state_lock] is never split, and a stretch of the worker holds at most
    one such block.  Everything the outside world decides (microphone,
    recogniser, translator, the file system) is an explicit input of the
    transition that consumes it; time is not modelled, so a [join] with a
    timeout may end at any point of the schedule.

    Requests are served one at a time, by a single control-plane context,
    and the values of the JSON body of [/start] are strings. *)

From Stdlib Require Import Ascii String NArith.
From stdpp Require Import base decidable option list gmap strings.

Local Open Scope string_scope.

(** ** Python [str] operations

    A [str] is a [string], one [ascii] per character; a character is its
    code point, so the model covers the code points below 256. *)
Module PyStr.

Definition code (a : ascii) : N := N_of_ascii a.

(** [str.isspace] on one character: TAB..CR, FS..US, SPACE, NEL, NBSP. *)
Definition isspace (a : ascii) : bool :=
  let n := code a in
  ((9 <=? n) && (n <=? 13) || (28 <=? n) && (n <=? 32)
   || (n =? 133) || (n =? 160))%N.

(** [str.lower] on one character: A..Z and the Latin-1 capitals
    (U+00C0..U+00DE without the multiplication sign U+00D7). *)
Definition lower_char (a : ascii) : ascii :=
  let n := code a in
  if ((65 <=? n) && (n <=? 90)
      || (192 <=? n) && (n <=? 222) && negb (n =? 215))%N
  then ascii_of_N (n + 32) else a.

Fixpoint lower (s : string) : string :=
  match s with
  | EmptyString => EmptyString
  | String a s' => String (lower_char a) (lower s')
  end.

Fixpoint lstrip (s : string) : string :=
  match s with
  | EmptyString => EmptyString
  | String a s' => if isspace a then lstrip s' else s
  end.

(** Drops the trailing white space: a character is kept when something
    is kept after it or when it is not white space. *)
Fixpoint rstrip (s : string) : string :=
  match s with
  | EmptyString => EmptyString
  | String a s' =>
      match rstrip s' with
      | EmptyString => if isspace a then EmptyString else String a EmptyString
      | r => String a r
      end
  end.

(** [s.strip()] with no argument. *)
Definition strip (s : string) : string := rstrip (lstrip s).

(** Truth value of a [str]: only the empty string is falsy. *)
Definition truthy (s : string) : bool :=
  match s with EmptyString => false | _ => true end.

(** [a or b] on two [str] values. *)
Definition or_ (a b : string) : string := if truthy a then a else b.

(** [s.startswith(p)]. *)
Fixpoint startswith (p s : string) : bool :=
  match p, s with
  | EmptyString, _ => true
  | String a p', String b s' => if decide (a = b) then startswith p' s' else false
  | String _ _, EmptyString => false
  end.

End PyStr.

(** ** Language mapping helpers *)

(** [SR_LANG_MAP]: UI code to Google Speech Recognition locale. *)
Definition SR_LANG_MAP : gmap string string :=
  list_to_map
    [ ("en", "en-US"); ("hi", "hi-IN"); ("gu", "gu-IN"); ("cn", "zh-CN");
      ("zh", "zh-CN"); ("zh-cn", "zh-CN"); ("zh-CN", "zh-CN"); ("ko", "ko-KR") ].

(** [TR_LANG_MAP]: UI code to deep-translator code. *)
Definition TR_LANG_MAP : gmap string string :=
  list_to_map
    [ ("en", "en"); ("hi", "hi"); ("gu", "gu"); ("cn", "zh-CN");
      ("zh", "zh-CN"); ("zh-cn", "zh-CN"); ("zh-CN", "zh-CN"); ("ko", "ko") ].

(** [d.get(k, dflt)]. *)
Definition dict_get (d : gmap string string) (k dflt : string) : string :=
  default dflt (d !! k).

Definition normalize_sr_lang (code : string) : string :=
  let c := PyStr.strip (PyStr.or_ code "") in
  dict_get SR_LANG_MAP c (dict_get SR_LANG_MAP (PyStr.lower c) "en-US").

Definition normalize_tr_lang (code : string) : string :=
  let c := PyStr.strip (PyStr.or_ code "") in
  dict_get TR_LANG_MAP c (dict_get TR_LANG_MAP (PyStr.lower c) "en").

(** ** Global state

    The dictionary [state] has a fixed set of keys, so it is a record.  A
    thread handle is the index of the worker in the pool of the system, an
    [Event] handle the index of its flag in the event store. *)
Record State := mkState {
  running : bool;
  thread : option nat;
  stop_event : option nat;
  translated_text : string;
  source_lang : option string;
  target_lang : option string;
}.

Definition initial_state : State :=
  {| running := false;
     thread := None;
     stop_event := None;
     translated_text := "Waiting for speech...";
     source_lang := None;
     target_lang := None |}.

(** [state["translated_text"] = t] *)
Definition set_text (t : string) (st : State) : State :=
  {| running := running st;
     thread := thread st;
     stop_event := stop_event st;
     translated_text := t;
     source_lang := source_lang st;
     target_lang := target_lang st |}.

(** The three assignments [running = False], [thread = None],
    [stop_event = None] that every terminating path performs. *)
Definition clear_session (st : State) : State :=
  {| running := false;
     thread := None;
     stop_event := None;
     translated_text := translated_text st;
     source_lang := source_lang st;
     target_lang := target_lang st |}.

(** ** What the outside world answers *)

Inductive outcome (A : Type) : Type :=
  | Returns (a : A)
  | Raises (msg : string).   (* [str(e)] of the exception *)
Arguments Returns {A} a.
Arguments Raises {A} msg.

(** [recognizer.listen(source, timeout=1, phrase_time_limit=7)] *)
Inductive listen_outcome : Type :=
  | Heard
  | WaitTimeoutError
  | ListenError (msg : string).

(** [recognizer.recognize_google(audio, language=sr_locale)] *)
Inductive recognize_outcome : Type :=
  | Transcript (t : string)
  | UnknownValueError
  | RequestError (msg : string)
  | RecognizeError (msg : string).

(** The answers available to one step of one worker. *)
Record World := mkWorld {
  microphone : outcome unit;                 (* [sr.Microphone()] *)
  adjust_for_ambient_noise : outcome unit;
  listen : listen_outcome;
  recognize_google : string -> recognize_outcome;      (* by [language] *)
  translate : string -> string -> string -> outcome string;
    (* [GoogleTranslator(source, target).translate(text)] *)
}.

(** ** Background worker *)

(** One pass through the body of the [while] loop: the text it assigns to
    [state["translated_text"]], if any, and the [time.sleep] it takes, in
    milliseconds, if any. *)
Record Iteration := mkIteration {
  publish : option string;
  sleep_ms : option N;
}.

Definition translate_with_fallback
    (o : World) (tr_source tr_target transcript : string) : string :=
  match translate o tr_source tr_target transcript with
  | Returns translated => translated
  | Raises _ =>
      match translate o "auto" tr_target transcript with
      | Returns translated => translated
      | Raises e => transcript ++ " (translation unavailable: " ++ e ++ ")"
      end
  end.

Definition iteration (o : World) (sr_locale tr_source tr_target : string)
  : Iteration :=
  match listen o with
  | WaitTimeoutError => mkIteration None None
  | ListenError e => mkIteration (Some ("Mic capture error: " ++ e)) (Some 300%N)
  | Heard =>
      match recognize_google o sr_locale with
      | UnknownValueError => mkIteration None None
      | RequestError e =>
          mkIteration (Some ("Speech recognition API error: " ++ e)) (Some 1000%N)
      | RecognizeError e =>
          mkIteration (Some ("Unexpected SR error: " ++ e)) (Some 500%N)
      | Transcript transcript =>
          if negb (PyStr.truthy transcript) then mkIteration None None
          else mkIteration
                 (Some (translate_with_fallback o tr_source tr_target transcript))
                 (Some 50%N)
      end
  end.

(** Program points of [listen_and_translate]. *)
Inductive PC : Type :=
  | Initializing   (* before [sr.Microphone()] *)
  | Calibrating    (* before [adjust_for_ambient_noise] *)
  | LoopHead       (* at [while not stop_event.is_set()] *)
  | Iterating      (* inside the loop body *)
  | Exiting        (* left the loop, before the clean-exit block *)
  | Exited.        (* returned *)

#[global] Instance PC_eq_dec : EqDecision PC.
Proof. solve_decision. Defined.

(** A thread running [listen_and_translate(source_lang, target_lang,
    stop_event)], with the pauses it has taken so far. *)
Record Worker := mkWorker {
  w_source : string;
  w_target : string;
  w_event : nat;
  w_pc : PC;
  w_slept : list N;
}.

Definition at_pc (pc : PC) (wk : Worker) : Worker :=
  {| w_source := w_source wk; w_target := w_target wk; w_event := w_event wk;
     w_pc := pc; w_slept := w_slept wk |}.

Definition sleep (ms : option N) (wk : Worker) : Worker :=
  {| w_source := w_source wk; w_target := w_target wk; w_event := w_event wk;
     w_pc := w_pc wk; w_slept := w_slept wk ++ option_list ms |}.

(** [thread.is_alive()] *)
Definition is_alive (wk : Worker) : bool := bool_decide (w_pc wk <> Exited).

(** The two fatal paths: publish the message and clear the session. *)
Definition fatal (msg : string) (st : State) : State :=
  clear_session (set_text msg st).

(** The clean-exit block after the loop. *)
Definition clean_exit (st : State) : State :=
  let st' := clear_session st in
  if negb (PyStr.truthy (translated_text st')) then set_text "Stopped." st'
  else st'.

Definition listening_text (sr_locale tr_source tr_target : string) : string :=
  "Listening... (SR: " ++ sr_locale ++ ", TR: " ++ tr_source ++ " -> "
    ++ tr_target ++ ")".

(** [stop_event.is_set()] *)
Definition is_set (events : list bool) (e : nat) : bool :=
  default false (events !! e).

(** One step of a worker on the shared record: from its program point to
    the next one, with the single locked update of that stretch. *)
Definition worker_step (o : World) (events : list bool)
    (st : State) (wk : Worker) : State * Worker :=
  let sr_locale := normalize_sr_lang (w_source wk) in
  let tr_source := normalize_tr_lang (w_source wk) in
  let tr_target := normalize_tr_lang (w_target wk) in
  match w_pc wk with
  | Initializing =>
      match microphone o with
      | Returns _ => (st, at_pc Calibrating wk)
      | Raises e => (fatal ("Microphone error: " ++ e) st, at_pc Exited wk)
      end
  | Calibrating =>
      match adjust_for_ambient_noise o with
      | Returns _ =>
          (set_text (listening_text sr_locale tr_source tr_target) st,
           at_pc LoopHead wk)
      | Raises e =>
          (fatal ("Audio initialization error: " ++ e) st, at_pc Exited wk)
      end
  | LoopHead =>
      if is_set events (w_event wk) then (st, at_pc Exiting wk)
      else (st, at_pc Iterating wk)
  | Iterating =>
      let it := iteration o sr_locale tr_source tr_target in
      (from_option (fun t => set_text t st) st (publish it),
       at_pc LoopHead (sleep (sleep_ms it) wk))
  | Exiting => (clean_exit st, at_pc Exited wk)
  | Exited => (st, wk)
  end.

(** ** Flask responses *)

Inductive JVal : Type :=
  | JStr (s : string)
  | JBool (b : bool)
  | JNull.

Definition JOpt (o : option string) : JVal :=
  match o with Some s => JStr s | None => JNull end.

Inductive Response : Type :=
  | Json (body : list (string * JVal)) (status : nat)   (* [jsonify(...), status] *)
  | Abort (status : nat)
  | SendFromDirectory (directory : list string) (filename : string).

(** ** The system: shared record, threads, events, control plane *)

(** Program points of the control-plane context.  [start] releases the
    lock before it builds its reply; [stop] releases it between reading the
    handles and resetting the record. *)
Inductive Ctl : Type :=
  | Idle
  | StartReply                                   (* after the [with] block of [start] *)
  | StopSignal (ev : option nat) (wk : option nat)   (* before [if stop_event:] *)
  | StopJoin (wk : option nat).                  (* before [if worker and worker.is_alive():] *)

Record Sys := mkSys {
  shared : State;
  pool : list Worker;
  events : list bool;
  ctl : Ctl;
}.

Definition initial_sys : Sys :=
  {| shared := initial_state; pool := []; events := []; ctl := Idle |}.

Definition with_ctl (c : Ctl) (s : Sys) : Sys :=
  {| shared := shared s; pool := pool s; events := events s; ctl := c |}.

(** The workers that have not returned. *)
Definition active_workers (s : Sys) : list Worker := filter (fun wk => is_alive wk = true) (pool s).

Definition worker_alive (s : Sys) (w : nat) : bool :=
  from_option is_alive false (pool s !! w).

(** ** API routes *)

(** The part of [start] under the lock.  [body] is the JSON object of the
    request, [None] when [get_json(silent=True)] finds none. *)
Definition start_locked (body : option (gmap string string)) (s : Sys)
  : Sys * option Response :=
  let data := default ∅ body in
  let source_lang := dict_get data "sourceLang" "en" in
  let target_lang := dict_get data "targetLang" "en" in
  if running (shared s) then
    (s, Some (Json [("message", JStr "Already running");
                    ("translatedText", JStr (translated_text (shared s)))] 200))
  else
    let stop_event := length (events s) in
    let worker := length (pool s) in
    ({| shared :=
          {| running := true;
             thread := Some worker;
             stop_event := Some stop_event;
             translated_text := "Starting speech recognition...";
             source_lang := Some source_lang;
             target_lang := Some target_lang |};
        pool := pool s ++ [mkWorker source_lang target_lang stop_event Initializing []];
        events := events s ++ [false];
        ctl := StartReply |},
     None).

(** The reply of [start] after a spawn, read from the record without the lock. *)
Definition start_reply (s : Sys) : Sys * option Response :=
  (with_ctl Idle s,
   Some (Json [("message", JStr "Listening and translating...");
               ("translatedText", JStr (translated_text (shared s)))] 200)).

(** The first [with state_lock] block of [stop]. *)
Definition stop_locked (s : Sys) : Sys * option Response :=
  if negb (running (shared s)) then
    (s, Some (Json [("message", JStr "Not running")] 200))
  else
    (with_ctl (StopSignal (stop_event (shared s)) (thread (shared s))) s, None).

(** [if stop_event: stop_event.set()] *)
Definition stop_signal (ev wk : option nat) (s : Sys) : Sys :=
  {| shared := shared s;
     pool := pool s;
     events := match ev with
               | Some e => <[e := true]> (events s)
               | None => events s
               end;
     ctl := StopJoin wk |}.

(** What [worker.join(timeout=5)] waits for: nothing when there is no
    worker or it is not alive, otherwise the exit of the worker. *)
Definition joined (wk : option nat) (s : Sys) : bool :=
  match wk with
  | Some w => negb (worker_alive s w)
  | None => true
  end.

(** The end of [stop], entered when the join has returned, by the exit of
    the worker or by its timeout: the second [with state_lock] block. *)
Definition stop_reset (s : Sys) : Sys * option Response :=
  ({| shared := set_text "Stopped." (clear_session (shared s));
      pool := pool s;
      events := events s;
      ctl := Idle |},
   Some (Json [("message", JStr "Stopped.")] 200)).

Definition status (s : Sys) : Response :=
  Json [("running", JBool (running (shared s)));
        ("translatedText", JStr (translated_text (shared s)));
        ("sourceLang", JOpt (source_lang (shared s)));
        ("targetLang", JOpt (target_lang (shared s)))] 200.

(** ** Interleaving semantics *)

Inductive Label : Type :=
  | CallStart (body : option (gmap string string))
  | StartReturn
  | CallStop
  | StopSet
  | StopReturn          (* the join is over *)
  | CallStatus
  | WorkerStep (w : nat) (o : World).

Definition run_worker (w : nat) (o : World) (s : Sys) : Sys :=
  match pool s !! w with
  | Some wk =>
      let '(st, wk') := worker_step o (events s) (shared s) wk in
      {| shared := st; pool := <[w := wk']> (pool s);
         events := events s; ctl := ctl s |}
  | None => s
  end.

(** One transition; a label that is not enabled leaves the system as it is. *)
Definition step (l : Label) (s : Sys) : Sys * option Response :=
  match l, ctl s with
  | CallStart body, Idle => start_locked body s
  | StartReturn, StartReply => start_reply s
  | CallStop, Idle => stop_locked s
  | StopSet, StopSignal ev wk => (stop_signal ev wk s, None)
  | StopReturn, StopJoin _ => stop_reset s
  | CallStatus, Idle => (s, Some (status s))
  | WorkerStep w o, _ => (run_worker w o s, None)
  | _, _ => (s, None)
  end.

Fixpoint exec (ls : list Label) (s : Sys) : Sys :=
  match ls with
  | [] => s
  | l :: ls' => exec ls' (step l s).1
  end.

(** The replies sent during a run, in order. *)
Fixpoint replies (ls : list Label) (s : Sys) : list Response :=
  match ls with
  | [] => []
  | l :: ls' => option_list (step l s).2 ++ replies ls' (step l s).1
  end.

(** A stop whose wait ends only when the worker has returned. *)
Definition waits_for_exit (l : Label) (s : Sys) : Prop :=
  match l, ctl s with
  | StopReturn, StopJoin wk => joined wk s = true
  | _, _ => True
  end.

Inductive reachable_when (ok : Label -> Sys -> Prop) : Sys -> Prop :=
  | reach_init : reachable_when ok initial_sys
  | reach_step l s :
      reachable_when ok s -> ok l s -> reachable_when ok (step l s).1.

(** Any sequence of calls and worker steps. *)
Definition reachable : Sys -> Prop := reachable_when (fun _ _ => True).

(** The runs in which no [join] times out. *)
Definition reachable_patiently : Sys -> Prop := reachable_when waits_for_exit.

(** Steps of workers only, as they happen while the control plane waits. *)
Definition worker_steps (sched : list (nat * World)) : list Label :=
  map (fun '(w, o) => WorkerStep w o) sched.

(** A whole call of [start]: the locked block, the worker steps that slip
    in before the reply is built, the reply. *)
Definition start (body : option (gmap string string))
    (sched : list (nat * World)) : list Label :=
  CallStart body :: worker_steps sched ++ [StartReturn].

(** A whole call of [stop], with the worker steps taken while it is
    outside the lock: before the event is set, and during the join. *)
Definition stop (before_set during_join : list (nat * World)) : list Label :=
  CallStop :: worker_steps before_set ++ StopSet :: worker_steps during_join
    ++ [StopReturn].

(** ** Frontend routes *)

Module Static.

(** An absolute path, as the list of its components below the root. *)
Definition path := list string.

(** What the route asks of the operating system: [Path.resolve()], taken
    to return a path, and [Path.is_file()]. *)
Record FileSystem := mkFileSystem {
  resolve : path -> path;
  is_file : path -> bool;
}.

(** [s.split("/")] *)
Fixpoint split_slash (s : string) : list string :=
  match s with
  | EmptyString => [EmptyString]
  | String a s' =>
      if decide (a = "/"%char) then EmptyString :: split_slash s'
      else match split_slash s' with
           | c :: cs => String a c :: cs
           | [] => [String a EmptyString]
           end
  end.

(** The components pathlib keeps of a path string: empty ones and ["."]
    are dropped, [".."] stays. *)
Definition parts (s : string) : path :=
  filter (fun c => c <> "" /\ c <> ".") (split_slash s).

(** [base / filename]: an absolute right operand replaces the left one. *)
Definition joinpath (base : path) (filename : string) : path :=
  if PyStr.startswith "/" filename then parts filename
  else (base ++ parts filename)%list.

(** [p.parent] *)
Definition parent (p : path) : path := removelast p.

(** The text of [name] from its last dot on, if it has a dot. *)
Fixpoint from_last_dot (name : string) : option string :=
  match name with
  | EmptyString => None
  | String a rest =>
      match from_last_dot rest with
      | Some r => Some r
      | None => if decide (a = "."%char) then Some name else None
      end
  end.

(** [p.suffix]: the last dot must be neither the first nor the last
    character of the final component. *)
Definition suffix (p : path) : string :=
  let name := List.last p "" in
  match from_last_dot name with
  | Some r => if decide (r = name \/ r = ".") then "" else r
  | None => ""
  end.

Definition ALLOWED_STATIC_EXTS : gset string :=
  list_to_set
    [ ".css"; ".js"; ".mjs"; ".map";
      ".png"; ".jpg"; ".jpeg"; ".gif"; ".svg"; ".webp"; ".ico";
      ".woff"; ".woff2"; ".ttf"; ".otf" ].

Definition API_PATHS : gset string := list_to_set [ "start"; "stop"; "status" ].

Section Route.
Variable fs : FileSystem.
(** [__file__] of the module. *)
Variable module_file : path.

Definition PROJECT_ROOT : path := parent (parent (resolve fs module_file)).
Definition FRONTEND_DIR : path := PROJECT_ROOT.

(** [(FRONTEND_DIR / filename).resolve()] *)
Definition target (filename : string) : path :=
  resolve fs (joinpath FRONTEND_DIR filename).

(** [target.relative_to(FRONTEND_DIR)] does not raise [ValueError]. *)
Definition inside_root (p : path) : bool := bool_decide (FRONTEND_DIR `prefix_of` p).

Definition serve_static_file (filename : string) : Response :=
  if bool_decide (filename ∈ API_PATHS) then Abort 404
  else if negb (inside_root (target filename)) then Abort 403
  else if is_file fs (target filename)
          && bool_decide (suffix (target filename) ∈ ALLOWED_STATIC_EXTS)
       then SendFromDirectory FRONTEND_DIR filename
       else Abort 404.
End Route.

(** Resolution on a file system without symbolic links: [".."] climbs
    one level and stays at the root. *)
Definition normpath (p : path) : path :=
  foldl (fun acc c => if decide (c = "..") then removelast acc else (acc ++ [c])%list) [] p.

Definition plain_fs (files : list path) : FileSystem :=
  {| resolve := normpath; is_file := fun p => bool_decide (p ∈ files) |}.

End Static.

(** ** Predicates used by the properties *)

(** The string both normalisers look up. *)
Definition lookup_key (code : string) : string :=
  PyStr.strip (PyStr.or_ code "").

(** The texts the worker and [stop] publish when a session ends. *)
Definition terminal_text (t : string) : bool :=
  bool_decide (t = "Stopped.")
  || PyStr.startswith "Microphone error: " t
  || PyStr.startswith "Audio initialization error: " t.

(** The record and the pool agree: while [running] holds, the recorded
    thread is a live worker and the recorded event is the one it polls;
    otherwise both handles are [None]. *)
Definition Consistent (s : Sys) : Prop :=
  (running (shared s) = true ->
     exists w wk, thread (shared s) = Some w /\ pool s !! w = Some wk
                  /\ is_alive wk = true
                  /\ stop_event (shared s) = Some (w_event wk)
                  /\ w_event wk < length (events s))
  /\ (running (shared s) = false ->
        thread (shared s) = None /\ stop_event (shared s) = None).

(** No worker outlives its session: every live worker is the recorded one
    of a running session, and a [stop] in progress waits for that worker. *)
Definition Sole (s : Sys) : Prop :=
  (forall w wk, pool s !! w = Some wk -> is_alive wk = true ->
     running (shared s) = true /\ thread (shared s) = Some w)
  /\ (running (shared s) = true ->
        exists w, thread (shared s) = Some w /\ worker_alive s w = true)
  /\ match ctl s with
     | StopSignal _ wk | StopJoin wk =>
         running (shared s) = true -> thread (shared s) = wk
     | _ => True
     end.

(** The two language fields of the record. *)
Definition languages (s : Sys) : option string * option string :=
  (source_lang (shared s), target_lang (shared s)).

(** The label of the locked block of [start]. *)
Definition is_call_start (l : Label) : Prop :=
  match l with CallStart _ => True | _ => False end.

(** A path without [".."] components. *)
Definition climbs_nowhere (p : Static.path) : Prop := Forall (fun c => c <> "..") p.

(** The runs whose every [StopReturn] finds its worker returned. *)
Fixpoint patient (ls : list Label) (s : Sys) : bool :=
  match ls with
  | [] => true
  | l :: ls' =>
      match l, ctl s with
      | StopReturn, StopJoin wk => joined wk s
      | _, _ => true
      end && patient ls' (step l s).1
  end.

(** ** Sample worlds, sessions and file systems *)

(** A world in which every device works and nothing is heard. *)
Definition quiet : World :=
  {| microphone := Returns tt;
     adjust_for_ambient_noise := Returns tt;
     listen := WaitTimeoutError;
     recognize_google := fun _ => UnknownValueError;
     translate := fun _ _ _ => Raises "offline" |}.

(** A world in which a phrase is captured, the recogniser answers [r] and
    the translator behaves as [tr]. *)
Definition hears (r : recognize_outcome)
    (tr : string -> string -> string -> outcome string) : World :=
  {| microphone := Returns tt;
     adjust_for_ambient_noise := Returns tt;
     listen := Heard;
     recognize_google := fun _ => r;
     translate := tr |}.

(** A session started with the default languages whose worker is inside
    the loop body. *)
Definition sample_iterating : Sys :=
  exec [CallStart None; StartReturn; WorkerStep 0 quiet; WorkerStep 0 quiet;
        WorkerStep 0 quiet] initial_sys.

(** A translator that knows no language pair but answers when it detects
    the source itself. *)
Definition auto_only (source target text : string) : outcome string :=
  if decide (source = "auto") then Returns "hola" else Raises "pair not supported".

(** The JSON object [{"sourceLang": src, "targetLang": tgt}]. *)
Definition request_body (src tgt : string) : option (gmap string string) :=
  Some (<["sourceLang" := src]> (<["targetLang" := tgt]> ∅)).

(** A session whose worker is inside the loop body, blocked in a call to
    the recogniser, when [stop] arrives. *)
Definition busy_session : list Label :=
  start None [] ++ worker_steps [(0, quiet); (0, quiet); (0, quiet)].

(** A session whose worker has seen the event set by [stop] and left the
    loop, [stop] still waiting in its join. *)
Definition sample_exiting : Sys :=
  exec [CallStart None; StartReturn; WorkerStep 0 quiet; WorkerStep 0 quiet;
        CallStop; StopSet; WorkerStep 0 quiet] initial_sys.

(** A [stop] whose join times out on a busy worker, followed by a new
    [start]: the old worker is still inside its iteration when the new one
    is spawned. *)
Definition two_workers : Sys :=
  exec (busy_session ++ stop [] [] ++ start None []) initial_sys.

(** A session stopped while its worker was inside an iteration, the join
    lasting until the worker had finished the pass, seen the event and
    returned. *)
Definition patient_stop : list Label :=
  busy_session ++ stop [] [(0, quiet); (0, quiet); (0, quiet)].

(** The tree of the examples: the project in [/srv/site], a file beside
    it, no symbolic links. *)
Definition sample_fs : Static.FileSystem :=
  Static.plain_fs [["srv"; "site"; "app.js"]; ["srv"; "secret.js"];
                   ["srv"; "site"; "server"; "app.py"]].

Definition sample_module_file : Static.path := ["srv"; "site"; "server"; "app.py"].

(** ** Notions used by the further properties *)

(** The five languages of the two tables, each as its recognition locale
    and its translation code. *)
Definition LANGUAGE_PAIRS : list (string * string) :=
  [ ("en-US", "en"); ("hi-IN", "hi"); ("gu-IN", "gu"); ("zh-CN", "zh-CN");
    ("ko-KR", "ko") ].

(** A string of white space only. *)
Fixpoint blank (s : string) : bool :=
  match s with
  | EmptyString => true
  | String a s' => PyStr.isspace a && blank s'
  end.

(** How many steps of worker [w] a schedule holds. *)
Definition steps_of (w : nat) (sched : list (nat * World)) : nat :=
  length (filter (fun p => p.1 = w) sched).

(** The steps a worker whose event is set can still take before it has
    returned, at most. *)
Definition remaining (pc : PC) : nat :=
  match pc with
  | Initializing => 4
  | Calibrating => 3
  | Iterating => 3
  | LoopHead => 2
  | Exiting => 1
  | Exited => 0
  end.

(** The passes through the loop body that publish nothing. *)
Definition silent_pass (o : World) (sr_locale : string) : Prop :=
  listen o = WaitTimeoutError
  \/ (listen o = Heard
      /\ (recognize_google o sr_locale = UnknownValueError
          \/ recognize_google o sr_locale = Transcript "")).

(** A world whose microphone cannot be opened. *)
Definition no_microphone : World :=
  {| microphone := Raises "No Default Input Device Available";
     adjust_for_ambient_noise := Returns tt;
     listen := WaitTimeoutError;
     recognize_google := fun _ => UnknownValueError;
     translate := fun _ _ _ => Raises "offline" |}.

(** Workers and events are created together: worker [w] polls event [w]. *)
Definition Numbered (s : Sys) : Prop :=
  length (events s) = length (pool s)
  /\ forall w wk, pool s !! w = Some wk -> w_event wk = w.

(** A worker leaves the loop only on a set event. *)
Definition LeftOnCancel (s : Sys) : Prop :=
  forall w wk, pool s !! w = Some wk -> w_pc wk = Exiting ->
               is_set (events s) (w_event wk) = true.

(** ** The index route *)

(** [INDEX_FILE = FRONTEND_DIR / "index.html"] *)
Definition INDEX_FILE (fs : Static.FileSystem) (module_file : Static.path) : Static.path :=
  Static.joinpath (Static.FRONTEND_DIR fs module_file) "index.html".

(** The replies of [serve_index]: [send_file(path)], or a text and a status. *)
Inductive IndexResponse : Type :=
  | SendFile (file : Static.path)
  | Text (body : string) (status : nat).

(** [serve_index], with [Path.exists()] asked of the operating system. *)
Definition serve_index (fs : Static.FileSystem) (path_exists : Static.path -> bool)
    (module_file : Static.path) : IndexResponse :=
  if path_exists (INDEX_FILE fs module_file) then SendFile (INDEX_FILE fs module_file)
  else Text "index.html not found next to project root" 404.

(** A session whose worker outlived a timed-out join: [stop] has returned,
    the worker is still inside its iteration. *)
Definition orphan_session : list Label := busy_session ++ stop [] [].

(** * Properties *)

(** ** Evaluations of the model *)

Example normalize_sr_gu : normalize_sr_lang "GU" = "gu-IN".
Proof. vm_compute. reflexivity. Qed.

Example normalize_sr_padded : normalize_sr_lang " hi " = "hi-IN".
Proof. vm_compute. reflexivity. Qed.

Example normalize_tr_unknown : normalize_tr_lang "fr" = "en".
Proof. vm_compute. reflexivity. Qed.

Example strip_inner : PyStr.strip "  zh CN  " = "zh CN".
Proof. vm_compute. reflexivity. Qed.

Example suffix_examples :
  Static.suffix ["srv"; "app.min.js"] = ".js" /\ Static.suffix ["srv"; ".css"] = ""
  /\ Static.suffix ["srv"; "a."] = "" /\ Static.suffix ["srv"; "README"] = "".
Proof. vm_compute. done. Qed.

Example parts_examples :
  Static.parts "a//b/./../c.js" = ["a"; "b"; ".."; "c.js"]
  /\ Static.joinpath ["srv"] "/etc/passwd" = ["etc"; "passwd"].
Proof. vm_compute. done. Qed.

Example serve_examples :
  Static.serve_static_file sample_fs sample_module_file "app.js"
    = SendFromDirectory ["srv"; "site"] "app.js"
  /\ Static.serve_static_file sample_fs sample_module_file "../secret.js" = Abort 403
  /\ Static.serve_static_file sample_fs sample_module_file "server/app.py" = Abort 404
  /\ Static.serve_static_file sample_fs sample_module_file "start" = Abort 404.
Proof. vm_compute. done. Qed.

(** ** Language normalisation *)

Section Normalizer.

Lemma normalize_sr_lang_eq code :
  normalize_sr_lang code =
    match SR_LANG_MAP !! lookup_key code with
    | Some v => v
    | None => default "en-US" (SR_LANG_MAP !! PyStr.lower (lookup_key code))
    end.
Proof.
  unfold normalize_sr_lang, dict_get, lookup_key.
  destruct (SR_LANG_MAP !! _); reflexivity.
Qed.

Lemma normalize_tr_lang_eq code :
  normalize_tr_lang code =
    match TR_LANG_MAP !! lookup_key code with
    | Some v => v
    | None => default "en" (TR_LANG_MAP !! PyStr.lower (lookup_key code))
    end.
Proof.
  unfold normalize_tr_lang, dict_get, lookup_key.
  destruct (TR_LANG_MAP !! _); reflexivity.
Qed.

End Normalizer.

(** C7, as stated, fails: [" hi "] is not a key of either table, nor is it
    one after lowercasing, yet it is normalised to ["hi-IN"] and ["hi"],
    because the code strips the input before it looks it up. *)
Lemma normalize_unstripped_counterexample :
  ~ (forall code : string,
        SR_LANG_MAP !! code = None -> SR_LANG_MAP !! PyStr.lower code = None ->
        TR_LANG_MAP !! code = None -> TR_LANG_MAP !! PyStr.lower code = None ->
        normalize_sr_lang code = "en-US" /\ normalize_tr_lang code = "en").
Proof.
  intros H.
  destruct (H " hi ") as [Hsr _]; try (vm_compute; reflexivity).
  vm_compute in Hsr. discriminate Hsr.
Qed.

(** C7 (amended): with [c] the input stripped of surrounding white space,
    an exact match of [c] in the table is returned; failing that, a match
    of [c] lowercased; failing that, ["en-US"] for recognition and ["en"]
    for translation.  Both functions are total. *)
Theorem normalize_lookup_order (code : string) :
  let c := PyStr.strip code in
  (forall v, SR_LANG_MAP !! c = Some v -> normalize_sr_lang code = v)
  /\ (forall v, SR_LANG_MAP !! c = None -> SR_LANG_MAP !! PyStr.lower c = Some v ->
        normalize_sr_lang code = v)
  /\ (SR_LANG_MAP !! c = None -> SR_LANG_MAP !! PyStr.lower c = None ->
        normalize_sr_lang code = "en-US")
  /\ (forall v, TR_LANG_MAP !! c = Some v -> normalize_tr_lang code = v)
  /\ (forall v, TR_LANG_MAP !! c = None -> TR_LANG_MAP !! PyStr.lower c = Some v ->
        normalize_tr_lang code = v)
  /\ (TR_LANG_MAP !! c = None -> TR_LANG_MAP !! PyStr.lower c = None ->
        normalize_tr_lang code = "en").
Proof.
  assert (Hkey : lookup_key code = PyStr.strip code).
  { unfold lookup_key, PyStr.or_. destruct code; reflexivity. }
  cbv zeta. rewrite normalize_sr_lang_eq, normalize_tr_lang_eq, Hkey.
  refine (conj _ (conj _ (conj _ (conj _ (conj _ _))))).
  - intros v ->. reflexivity.
  - intros v -> ->. reflexivity.
  - intros -> ->. reflexivity.
  - intros v ->. reflexivity.
  - intros v -> ->. reflexivity.
  - intros -> ->. reflexivity.
Qed.

Lemma normalize_lookup_order_witness :
  normalize_sr_lang " zh-CN " = "zh-CN"
  /\ normalize_sr_lang "KO" = "ko-KR"
  /\ normalize_sr_lang "fr" = "en-US"
  /\ normalize_tr_lang "zh-CN" = "zh-CN"
  /\ normalize_tr_lang " Gu" = "gu"
  /\ normalize_tr_lang "" = "en".
Proof.
  refine (conj _ (conj _ (conj _ (conj _ (conj _ _))))).
  - apply (proj1 (normalize_lookup_order " zh-CN ")).
    vm_compute. reflexivity.
  - apply (proj1 (proj2 (normalize_lookup_order "KO")));
      vm_compute; reflexivity.
  - apply (proj1 (proj2 (proj2 (normalize_lookup_order "fr"))));
      vm_compute; reflexivity.
  - apply (proj1 (proj2 (proj2 (proj2 (normalize_lookup_order "zh-CN"))))).
    vm_compute. reflexivity.
  - apply (proj1 (proj2 (proj2 (proj2 (proj2 (normalize_lookup_order " Gu"))))));
      vm_compute; reflexivity.
  - apply (proj2 (proj2 (proj2 (proj2 (proj2 (normalize_lookup_order ""))))));
      vm_compute; reflexivity.
Defined.

(** ** One step of a worker *)

Section WorkerSteps.

Lemma step_worker w o s : step (WorkerStep w o) s = (run_worker w o s, None).
Proof. unfold step. destruct (ctl s); reflexivity. Qed.

Lemma run_worker_at w o s wk :
  pool s !! w = Some wk ->
  run_worker w o s =
    {| shared := (worker_step o (events s) (shared s) wk).1;
       pool := <[w := (worker_step o (events s) (shared s) wk).2]> (pool s);
       events := events s;
       ctl := ctl s |}.
Proof.
  intros Hw. unfold run_worker. rewrite Hw.
  destruct (worker_step _ _ _ _). reflexivity.
Qed.

Lemma run_worker_absent w o s : pool s !! w = None -> run_worker w o s = s.
Proof. intros Hw. unfold run_worker. rewrite Hw. reflexivity. Qed.

Lemma sleep_none wk : sleep None wk = wk.
Proof. destruct wk. unfold sleep. simpl. rewrite app_nil_r. reflexivity. Qed.

Lemma truthy_nonempty t : t <> "" -> PyStr.truthy t = true.
Proof. destruct t; [congruence | reflexivity]. Qed.

(** The iteration of a worker that got a non-empty transcript. *)
Lemma iteration_transcript o sr_locale tr_source tr_target t :
  listen o = Heard -> recognize_google o sr_locale = Transcript t -> t <> "" ->
  iteration o sr_locale tr_source tr_target =
    mkIteration (Some (translate_with_fallback o tr_source tr_target t)) (Some 50%N).
Proof.
  intros Hl Hr Ht. unfold iteration.
  rewrite Hl, Hr, (truthy_nonempty _ Ht). reflexivity.
Qed.

End WorkerSteps.

(** C8: an iteration in which the recogniser raises [UnknownValueError]
    goes back to the loop head and leaves the shared record as it was: no
    text is published, no pause is taken, nothing is replied. *)
Theorem unknown_value_is_silent (o : World) (w : nat) (s : Sys) (wk : Worker) :
  pool s !! w = Some wk ->
  w_pc wk = Iterating ->
  listen o = Heard ->
  recognize_google o (normalize_sr_lang (w_source wk)) = UnknownValueError ->
  let s' := (step (WorkerStep w o) s).1 in
  shared s' = shared s
  /\ (exists wk', pool s' = <[w := wk']> (pool s)
                  /\ w_pc wk' = LoopHead /\ w_slept wk' = w_slept wk)
  /\ events s' = events s
  /\ ctl s' = ctl s
  /\ (step (WorkerStep w o) s).2 = None.
Proof.
  intros Hw Hpc Hl Hr. cbv zeta.
  rewrite step_worker, (run_worker_at _ _ _ _ Hw). simpl.
  unfold worker_step, iteration. rewrite Hpc, Hl, Hr. simpl.
  rewrite sleep_none.
  refine (conj eq_refl (conj _ (conj eq_refl (conj eq_refl eq_refl)))).
  exists (at_pc LoopHead wk). repeat split.
Qed.

Lemma unknown_value_is_silent_witness :
  let o := hears UnknownValueError (fun _ _ _ => Returns "unused") in
  let s' := (step (WorkerStep 0 o) sample_iterating).1 in
  shared s' = shared sample_iterating
  /\ (exists wk', pool s' = <[0 := wk']> (pool sample_iterating)
                  /\ w_pc wk' = LoopHead /\ w_slept wk' = [])
  /\ events s' = events sample_iterating
  /\ ctl s' = ctl sample_iterating
  /\ (step (WorkerStep 0 o) sample_iterating).2 = None.
Proof.
  apply (unknown_value_is_silent
           (hears UnknownValueError (fun _ _ _ => Returns "unused")) 0
           sample_iterating (mkWorker "en" "en" 0 Iterating [])).
  - vm_compute. reflexivity.
  - reflexivity.
  - reflexivity.
  - reflexivity.
Defined.

(** By contrast, an error of the recognition service is published and
    followed by a pause of one second. *)
Example request_error_pauses :
  let s' := (step (WorkerStep 0 (hears (RequestError "quota") (fun _ _ _ => Returns "unused")))
               sample_iterating).1 in
  translated_text (shared s') = "Speech recognition API error: quota"
  /\ pool s' = [mkWorker "en" "en" 0 LoopHead [1000%N]].
Proof. vm_compute. split; reflexivity. Qed.

(** C5: a worker iteration with a non-empty transcript publishes the
    translation from the normalised source to the normalised target when
    that call returns; the translation with source ["auto"] when the first
    call raises and the retry returns; and, when both raise, the transcript
    itself followed by the translation-unavailable note.  In every case
    something is published and the worker returns to the loop head. *)
Theorem transcript_is_published (o : World) (w : nat) (s : Sys) (wk : Worker)
    (transcript : string) :
  pool s !! w = Some wk ->
  w_pc wk = Iterating ->
  listen o = Heard ->
  recognize_google o (normalize_sr_lang (w_source wk)) = Transcript transcript ->
  transcript <> "" ->
  let tr_source := normalize_tr_lang (w_source wk) in
  let tr_target := normalize_tr_lang (w_target wk) in
  let s' := (step (WorkerStep w o) s).1 in
  (forall translated,
      translate o tr_source tr_target transcript = Returns translated ->
      translated_text (shared s') = translated)
  /\ (forall e translated,
        translate o tr_source tr_target transcript = Raises e ->
        translate o "auto" tr_target transcript = Returns translated ->
        translated_text (shared s') = translated)
  /\ (forall e1 e2,
        translate o tr_source tr_target transcript = Raises e1 ->
        translate o "auto" tr_target transcript = Raises e2 ->
        translated_text (shared s')
          = transcript ++ " (translation unavailable: " ++ e2 ++ ")")
  /\ (exists wk', pool s' !! w = Some wk' /\ w_pc wk' = LoopHead).
Proof.
  intros Hw Hpc Hl Hr Ht. cbv zeta.
  rewrite step_worker, (run_worker_at _ _ _ _ Hw). simpl.
  unfold worker_step. rewrite Hpc.
  rewrite (iteration_transcript _ _ _ _ _ Hl Hr Ht). simpl.
  unfold translate_with_fallback.
  refine (conj _ (conj _ (conj _ _))).
  - intros translated ->. reflexivity.
  - intros e translated -> ->. reflexivity.
  - intros e1 e2 -> ->. reflexivity.
  - eexists. split.
    + apply list_lookup_insert_eq. eapply lookup_lt_Some, Hw.
    + reflexivity.
Qed.

Lemma transcript_is_published_witness :
  translated_text
    (shared (step (WorkerStep 0 (hears (Transcript "hello") (fun _ _ _ => Returns "namaste")))
               sample_iterating).1) = "namaste"
  /\ translated_text
       (shared (step (WorkerStep 0 (hears (Transcript "hello") auto_only))
                  sample_iterating).1) = "hola"
  /\ translated_text
       (shared (step (WorkerStep 0 (hears (Transcript "hello") (fun _ _ _ => Raises "offline")))
                  sample_iterating).1)
     = "hello (translation unavailable: offline)".
Proof.
  refine (conj _ (conj _ _)).
  - apply (proj1 (transcript_is_published
             (hears (Transcript "hello") (fun _ _ _ => Returns "namaste")) 0
             sample_iterating (mkWorker "en" "en" 0 Iterating []) "hello"
             ltac:(vm_compute; reflexivity) eq_refl eq_refl eq_refl
             ltac:(discriminate))).
    reflexivity.
  - apply (proj1 (proj2 (transcript_is_published
             (hears (Transcript "hello") auto_only) 0
             sample_iterating (mkWorker "en" "en" 0 Iterating []) "hello"
             ltac:(vm_compute; reflexivity) eq_refl eq_refl eq_refl
             ltac:(discriminate))) "pair not supported").
    + vm_compute. reflexivity.
    + vm_compute. reflexivity.
  - apply (proj1 (proj2 (proj2 (transcript_is_published
             (hears (Transcript "hello") (fun _ _ _ => Raises "offline")) 0
             sample_iterating (mkWorker "en" "en" 0 Iterating []) "hello"
             ltac:(vm_compute; reflexivity) eq_refl eq_refl eq_refl
             ltac:(discriminate)))) "offline" "offline").
    + reflexivity.
    + reflexivity.
Defined.

(** ** The clean exit of the worker *)

Example sample_exiting_eq :
  sample_exiting =
    {| shared := {| running := true; thread := Some 0; stop_event := Some 0;
                    translated_text := "Listening... (SR: en-US, TR: en -> en)";
                    source_lang := Some "en"; target_lang := Some "en" |};
       pool := [mkWorker "en" "en" 0 Exiting []];
       events := [true];
       ctl := StopJoin (Some 0) |}.
Proof. vm_compute. reflexivity. Qed.

(** C6, as stated, fails: the worker leaves the loop while the record holds
    the listening banner, which is no terminal message, and its clean exit
    keeps that text instead of publishing ["Stopped."]. *)
Lemma clean_exit_keeps_text_counterexample :
  ~ (forall (o : World) (w : nat) (s : Sys) (wk : Worker),
        pool s !! w = Some wk -> w_pc wk = Exiting ->
        terminal_text (translated_text (shared s)) = false ->
        translated_text (shared (step (WorkerStep w o) s).1) = "Stopped.").
Proof.
  intros H.
  specialize (H quiet 0 sample_exiting (mkWorker "en" "en" 0 Exiting [])).
  rewrite sample_exiting_eq in H.
  specialize (H eq_refl eq_refl eq_refl).
  vm_compute in H. discriminate H.
Qed.

(** C6 (amended): the clean exit of a worker that left the loop clears
    [running], the thread handle and the stop event in one locked update,
    and publishes ["Stopped."] exactly when the text in the record is
    empty; any non-empty text stays.  The languages and the event store are
    untouched and the worker has returned. *)
Theorem clean_exit_clears_session (o : World) (w : nat) (s : Sys) (wk : Worker) :
  pool s !! w = Some wk ->
  w_pc wk = Exiting ->
  let s' := (step (WorkerStep w o) s).1 in
  running (shared s') = false
  /\ thread (shared s') = None
  /\ stop_event (shared s') = None
  /\ translated_text (shared s')
       = (if PyStr.truthy (translated_text (shared s))
          then translated_text (shared s) else "Stopped.")
  /\ source_lang (shared s') = source_lang (shared s)
  /\ target_lang (shared s') = target_lang (shared s)
  /\ events s' = events s
  /\ pool s' = <[w := at_pc Exited wk]> (pool s)
  /\ worker_alive s' w = false.
Proof.
  intros Hw Hpc. cbv zeta.
  rewrite step_worker, (run_worker_at _ _ _ _ Hw). simpl.
  unfold worker_step. rewrite Hpc. simpl.
  unfold worker_alive. simpl.
  rewrite list_lookup_insert_eq by (eapply lookup_lt_Some, Hw).
  unfold clean_exit. simpl.
  destruct (PyStr.truthy (translated_text (shared s))); simpl; repeat split.
Qed.

Lemma clean_exit_clears_session_witness :
  let s' := (step (WorkerStep 0 quiet) sample_exiting).1 in
  running (shared s') = false
  /\ thread (shared s') = None
  /\ stop_event (shared s') = None
  /\ translated_text (shared s')
       = (if PyStr.truthy (translated_text (shared sample_exiting))
          then translated_text (shared sample_exiting) else "Stopped.")
  /\ source_lang (shared s') = source_lang (shared sample_exiting)
  /\ target_lang (shared s') = target_lang (shared sample_exiting)
  /\ events s' = events sample_exiting
  /\ pool s' = <[0 := at_pc Exited (mkWorker "en" "en" 0 Exiting [])]> (pool sample_exiting)
  /\ worker_alive s' 0 = false.
Proof.
  apply (clean_exit_clears_session quiet 0 sample_exiting
           (mkWorker "en" "en" 0 Exiting [])).
  - vm_compute. reflexivity.
  - reflexivity.
Defined.

(** The clean exit does publish when the last translation was empty. *)
Example clean_exit_empty_text :
  translated_text (clean_exit (set_text "" initial_state)) = "Stopped."
  /\ translated_text (clean_exit (set_text "hola" initial_state)) = "hola".
Proof. split; reflexivity. Qed.

(** ** Runs *)

Section Runs.

Lemma exec_cons l ls s : exec (l :: ls) s = exec ls (step l s).1.
Proof. reflexivity. Qed.

Lemma replies_cons l ls s :
  replies (l :: ls) s = (option_list (step l s).2 ++ replies ls (step l s).1)%list.
Proof. reflexivity. Qed.

Lemma worker_steps_cons w o sched :
  worker_steps ((w, o) :: sched) = WorkerStep w o :: worker_steps sched.
Proof. reflexivity. Qed.

Lemma exec_app ls1 ls2 s : exec (ls1 ++ ls2) s = exec ls2 (exec ls1 s).
Proof. revert s. induction ls1 as [|l ls1 IH]; intros s; simpl; auto. Qed.

Lemma replies_app ls1 ls2 s :
  replies (ls1 ++ ls2) s = (replies ls1 s ++ replies ls2 (exec ls1 s))%list.
Proof.
  revert s. induction ls1 as [|l ls1 IH]; intros s; simpl; auto.
  rewrite IH, app_assoc. reflexivity.
Qed.

Lemma worker_steps_app sched1 sched2 :
  worker_steps (sched1 ++ sched2) = (worker_steps sched1 ++ worker_steps sched2)%list.
Proof. unfold worker_steps. apply map_app. Qed.

(** What a step of a worker can do to the record: keep the session
    fields, or clear them as it returns. *)
Lemma worker_step_spec o evs st wk :
  let st' := (worker_step o evs st wk).1 in
  let wk' := (worker_step o evs st wk).2 in
  source_lang st' = source_lang st
  /\ target_lang st' = target_lang st
  /\ w_event wk' = w_event wk
  /\ ((running st' = running st /\ thread st' = thread st
       /\ stop_event st' = stop_event st /\ is_alive wk' = is_alive wk)
      \/ (running st' = false /\ thread st' = None /\ stop_event st' = None
          /\ is_alive wk = true /\ is_alive wk' = false)).
Proof.
  cbv zeta. unfold worker_step.
  destruct wk as [src tgt ev pc slept]; simpl.
  destruct pc; simpl.
  - destruct (microphone o); simpl; auto 10.
  - destruct (adjust_for_ambient_noise o); simpl; auto 10.
  - destruct (is_set evs ev); simpl; auto 10.
  - destruct (publish _); simpl; auto 10.
  - unfold clean_exit. simpl.
    destruct (PyStr.truthy (translated_text st)); simpl; auto 10.
  - auto 10.
Qed.

Lemma worker_step_exited o evs st wk :
  is_alive wk = false -> worker_step o evs st wk = (st, wk).
Proof.
  unfold is_alive, worker_step. intros H.
  destruct (w_pc wk); try reflexivity; exfalso;
    apply bool_decide_eq_false in H; apply H; discriminate.
Qed.

Lemma run_worker_frame w o s :
  ctl (run_worker w o s) = ctl s
  /\ events (run_worker w o s) = events s
  /\ source_lang (shared (run_worker w o s)) = source_lang (shared s)
  /\ target_lang (shared (run_worker w o s)) = target_lang (shared s)
  /\ length (pool (run_worker w o s)) = length (pool s)
  /\ (running (shared s) = false -> running (shared (run_worker w o s)) = false).
Proof.
  destruct (pool s !! w) as [wk|] eqn:Hw.
  - rewrite (run_worker_at _ _ _ _ Hw). simpl.
    destruct (worker_step_spec o (events s) (shared s) wk)
      as (Hs & Ht & _ & [(Hr & _) | (Hr & _)]);
      rewrite length_insert; repeat split; auto; congruence.
  - rewrite (run_worker_absent _ _ _ Hw). repeat split; auto.
Qed.

(** Worker steps reply nothing and leave the control plane, the events
    and the languages alone; they never set [running]. *)
Lemma worker_steps_frame sched s :
  ctl (exec (worker_steps sched) s) = ctl s
  /\ events (exec (worker_steps sched) s) = events s
  /\ source_lang (shared (exec (worker_steps sched) s)) = source_lang (shared s)
  /\ target_lang (shared (exec (worker_steps sched) s)) = target_lang (shared s)
  /\ length (pool (exec (worker_steps sched) s)) = length (pool s)
  /\ (running (shared s) = false ->
      running (shared (exec (worker_steps sched) s)) = false)
  /\ replies (worker_steps sched) s = [].
Proof.
  revert s. induction sched as [|[w o] sched IH]; intros s.
  - repeat split; auto.
  - rewrite worker_steps_cons, exec_cons, replies_cons, step_worker. simpl.
    destruct (IH (run_worker w o s)) as (H1 & H2 & H3 & H4 & H5 & H6 & H7).
    destruct (run_worker_frame w o s) as (G1 & G2 & G3 & G4 & G5 & G6).
    repeat split; try congruence; auto.
Qed.

Lemma no_active_workers s :
  active_workers s = [] -> forall w wk, pool s !! w = Some wk -> is_alive wk = false.
Proof.
  intros Hnil w wk Hw. destruct (is_alive wk) eqn:Ha; [|reflexivity].
  exfalso. eapply (filter_nil_not_elem_of _ _ wk Hnil); [exact Ha|].
  apply list_elem_of_lookup. eauto.
Qed.

(** Once every worker has returned, worker steps change nothing. *)
Lemma run_worker_idle w o s : active_workers s = [] -> run_worker w o s = s.
Proof.
  intros Hnil. destruct (pool s !! w) as [wk|] eqn:Hw.
  - rewrite (run_worker_at _ _ _ _ Hw).
    rewrite (worker_step_exited _ _ _ _ (no_active_workers _ Hnil _ _ Hw)). simpl.
    rewrite (list_insert_id _ _ _ Hw). destruct s; reflexivity.
  - apply run_worker_absent, Hw.
Qed.

Lemma worker_steps_idle sched s :
  active_workers s = [] -> exec (worker_steps sched) s = s.
Proof.
  intros Hnil. induction sched as [|[w o] sched IH]; [reflexivity|].
  rewrite worker_steps_cons, exec_cons, step_worker. simpl.
  rewrite (run_worker_idle _ _ _ Hnil). exact IH.
Qed.

End Runs.

(** ** The control routes, call by call *)

Section Calls.

Lemma step_enabled s :
  (forall body, ctl s = Idle -> step (CallStart body) s = start_locked body s)
  /\ (ctl s = StartReply -> step StartReturn s = start_reply s)
  /\ (ctl s = Idle -> step CallStop s = stop_locked s)
  /\ (forall ev wk, ctl s = StopSignal ev wk ->
        step StopSet s = (stop_signal ev wk s, None))
  /\ (forall wk, ctl s = StopJoin wk -> step StopReturn s = stop_reset s).
Proof. unfold step. repeat split; intros; rewrite H; reflexivity. Qed.

Lemma step_disabled s :
  ctl s = Idle ->
  step StartReturn s = (s, None) /\ step StopSet s = (s, None)
  /\ step StopReturn s = (s, None).
Proof. unfold step. intros ->. repeat split. Qed.

Lemma stop_locked_idle s :
  running (shared s) = false ->
  stop_locked s = (s, Some (Json [("message", JStr "Not running")] 200)).
Proof. unfold stop_locked. intros ->. reflexivity. Qed.

Lemma stop_locked_running s :
  running (shared s) = true ->
  stop_locked s =
    (with_ctl (StopSignal (stop_event (shared s)) (thread (shared s))) s, None).
Proof. unfold stop_locked. intros ->. reflexivity. Qed.

(** A [stop] that finds no session only lets the workers go on. *)
Lemma stop_not_running s before_set during_join :
  ctl s = Idle -> running (shared s) = false ->
  exec (stop before_set during_join) s
    = exec (worker_steps (before_set ++ during_join)) s
  /\ replies (stop before_set during_join) s
     = [Json [("message", JStr "Not running")] 200].
Proof.
  intros Hc Hr. unfold stop.
  destruct (step_enabled s) as (_ & _ & Hstop & _).
  rewrite exec_cons, replies_cons, (Hstop Hc), (stop_locked_idle _ Hr). simpl.
  rewrite exec_app, replies_app, exec_cons, replies_cons.
  destruct (worker_steps_frame before_set s) as (Hc1 & _ & _ & _ & _ & _ & Hq1).
  rewrite Hc in Hc1.
  destruct (step_disabled _ Hc1) as (_ & Hset & _). rewrite Hset, Hq1. simpl.
  rewrite exec_app, replies_app, exec_cons, replies_cons.
  destruct (worker_steps_frame during_join (exec (worker_steps before_set) s))
    as (Hc2 & _ & _ & _ & _ & _ & Hq2).
  rewrite Hc1 in Hc2.
  destruct (step_disabled _ Hc2) as (_ & _ & Hret). rewrite Hret, Hq2. simpl.
  rewrite worker_steps_app, exec_app. auto.
Qed.

(** A [stop] that finds a session, phase by phase. *)
Lemma stop_running s before_set during_join :
  ctl s = Idle -> running (shared s) = true ->
  let ev := stop_event (shared s) in
  let wk := thread (shared s) in
  let s1 := exec (worker_steps before_set) (with_ctl (StopSignal ev wk) s) in
  let s2 := exec (worker_steps during_join) (stop_signal ev wk s1) in
  exec (stop before_set during_join) s = (stop_reset s2).1
  /\ replies (stop before_set during_join) s
     = [Json [("message", JStr "Stopped.")] 200].
Proof.
  intros Hc Hr. cbv zeta. unfold stop.
  destruct (step_enabled s) as (_ & _ & Hstop & _).
  rewrite exec_cons, replies_cons, (Hstop Hc), (stop_locked_running _ Hr). simpl.
  set (s0 := with_ctl _ s).
  rewrite exec_app, replies_app, exec_cons, replies_cons.
  destruct (worker_steps_frame before_set s0) as (Hc1 & _ & _ & _ & _ & _ & Hq1).
  destruct (step_enabled (exec (worker_steps before_set) s0))
    as (_ & _ & _ & Hset & _).
  rewrite (Hset _ _ Hc1), Hq1. simpl.
  set (s1 := stop_signal _ _ _).
  rewrite exec_app, replies_app, exec_cons, replies_cons.
  destruct (worker_steps_frame during_join s1) as (Hc2 & _ & _ & _ & _ & _ & Hq2).
  destruct (step_enabled (exec (worker_steps during_join) s1))
    as (_ & _ & _ & _ & Hret).
  rewrite (Hret _ Hc2), Hq2. auto.
Qed.

End Calls.

(** C4: when no session is running, [stop] replies
    [{"message": "Not running"}] with status 200 and changes nothing: not
    the record, so not the text, nor the workers, the events or the control
    plane; whatever the system does during the call is the workers' doing. *)
Theorem stop_when_not_running (s : Sys) (before_set during_join : list (nat * World)) :
  ctl s = Idle ->
  running (shared s) = false ->
  step CallStop s = (s, Some (Json [("message", JStr "Not running")] 200))
  /\ exec (stop [] []) s = s
  /\ replies (stop before_set during_join) s
     = [Json [("message", JStr "Not running")] 200]
  /\ exec (stop before_set during_join) s
     = exec (worker_steps (before_set ++ during_join)) s.
Proof.
  intros Hc Hr.
  destruct (step_enabled s) as (_ & _ & Hstop & _).
  destruct (stop_not_running s [] [] Hc Hr) as (He & _).
  destruct (stop_not_running s before_set during_join Hc Hr) as (He' & Hq').
  rewrite (Hstop Hc), (stop_locked_idle _ Hr). auto.
Qed.

Lemma stop_when_not_running_witness :
  step CallStop initial_sys
    = (initial_sys, Some (Json [("message", JStr "Not running")] 200))
  /\ exec (stop [] []) initial_sys = initial_sys
  /\ replies (stop [(0, quiet)] []) initial_sys
     = [Json [("message", JStr "Not running")] 200]
  /\ exec (stop [(0, quiet)] []) initial_sys
     = exec (worker_steps ([(0, quiet)] ++ [])) initial_sys.
Proof.
  apply (stop_when_not_running initial_sys [(0, quiet)] []); reflexivity.
Defined.

(** C2, as stated, fails when the worker does not return within the join:
    [stop] publishes ["Stopped."], then the worker finishes the iteration
    it was in and publishes its translation over it, so the [status] that
    follows reports ["hola"]; the worker then sees the event and returns,
    and the text stays. *)
Lemma stop_then_status_counterexample :
  replies
    (busy_session ++ stop [] []
       ++ worker_steps [(0, hears (Transcript "hello") auto_only)] ++ [CallStatus]
       ++ worker_steps [(0, quiet); (0, quiet)] ++ [CallStatus])
    initial_sys
  = [ Json [("message", JStr "Listening and translating...");
            ("translatedText", JStr "Starting speech recognition...")] 200;
      Json [("message", JStr "Stopped.")] 200;
      Json [("running", JBool false); ("translatedText", JStr "hola");
            ("sourceLang", JStr "en"); ("targetLang", JStr "en")] 200;
      Json [("running", JBool false); ("translatedText", JStr "hola");
            ("sourceLang", JStr "en"); ("targetLang", JStr "en")] 200 ].
Proof. vm_compute. reflexivity. Qed.

(** C2 (amended): a [stop] that finds a session running sets the stop
    event it read from the record, waits until its join is over (by the
    return of the worker or by the timeout, whatever the workers did in the
    meantime), and then sets [running] to false, clears both handles and
    publishes ["Stopped."]; it replies [{"message": "Stopped."}].  A
    [status] that follows with no worker step in between reports
    [running=false] and ["Stopped."].  After further worker steps [running]
    is still false; the text is still ["Stopped."] when every worker had
    returned by the end of the call. *)
Theorem stop_resets_session (s : Sys) (before_set during_join : list (nat * World)) :
  ctl s = Idle ->
  running (shared s) = true ->
  let s' := exec (stop before_set during_join) s in
  shared s' =
    {| running := false; thread := None; stop_event := None;
       translated_text := "Stopped.";
       source_lang := source_lang (shared s);
       target_lang := target_lang (shared s) |}
  /\ ctl s' = Idle
  /\ (forall e, stop_event (shared s) = Some e -> e < length (events s) ->
        is_set (events s') e = true)
  /\ replies (stop before_set during_join) s = [Json [("message", JStr "Stopped.")] 200]
  /\ status s' =
       Json [("running", JBool false); ("translatedText", JStr "Stopped.");
             ("sourceLang", JOpt (source_lang (shared s)));
             ("targetLang", JOpt (target_lang (shared s)))] 200
  /\ (forall after, running (shared (exec (worker_steps after) s')) = false)
  /\ (active_workers s' = [] ->
      forall after, status (exec (worker_steps after) s') = status s').
Proof.
  intros Hc Hr. cbv zeta.
  destruct (stop_running s before_set during_join Hc Hr) as (He & Hq).
  cbv zeta in He. rewrite He, Hq. clear He Hq.
  set (ev := stop_event (shared s)). set (wk := thread (shared s)).
  set (s0 := with_ctl (StopSignal ev wk) s).
  destruct (worker_steps_frame before_set s0) as (_ & He1 & Hs1 & Ht1 & _).
  set (s1 := exec (worker_steps before_set) s0) in *.
  destruct (worker_steps_frame during_join (stop_signal ev wk s1))
    as (_ & He2 & Hs2 & Ht2 & _).
  set (s2 := exec (worker_steps during_join) (stop_signal ev wk s1)) in *.
  assert (Hshared : shared (stop_reset s2).1 =
    {| running := false; thread := None; stop_event := None;
       translated_text := "Stopped.";
       source_lang := source_lang (shared s);
       target_lang := target_lang (shared s) |}).
  { simpl. unfold set_text, clear_session. simpl.
    rewrite Hs2, Ht2. simpl. rewrite Hs1, Ht1. reflexivity. }
  refine (conj Hshared (conj eq_refl (conj _ (conj eq_refl (conj _ (conj _ _)))))).
  - intros e Hev Hlt. simpl. rewrite He2. simpl. rewrite He1. simpl.
    fold ev. rewrite Hev. unfold is_set.
    rewrite list_lookup_insert_eq by exact Hlt. reflexivity.
  - unfold status. rewrite Hshared. reflexivity.
  - intros after.
    destruct (worker_steps_frame after (stop_reset s2).1) as (_ & _ & _ & _ & _ & Hrun & _).
    apply Hrun. rewrite Hshared. reflexivity.
  - intros Hnil after. rewrite (worker_steps_idle _ _ Hnil). reflexivity.
Qed.

Lemma stop_resets_session_witness :
  let s := exec busy_session initial_sys in
  let s' := exec (stop [] [(0, quiet)]) s in
  shared s' =
    {| running := false; thread := None; stop_event := None;
       translated_text := "Stopped.";
       source_lang := source_lang (shared s);
       target_lang := target_lang (shared s) |}
  /\ ctl s' = Idle
  /\ (forall e, stop_event (shared s) = Some e -> e < length (events s) ->
        is_set (events s') e = true)
  /\ replies (stop [] [(0, quiet)]) s = [Json [("message", JStr "Stopped.")] 200]
  /\ status s' =
       Json [("running", JBool false); ("translatedText", JStr "Stopped.");
             ("sourceLang", JOpt (source_lang (shared s)));
             ("targetLang", JOpt (target_lang (shared s)))] 200
  /\ (forall after, running (shared (exec (worker_steps after) s')) = false)
  /\ (active_workers s' = [] ->
      forall after, status (exec (worker_steps after) s') = status s').
Proof.
  apply (stop_resets_session (exec busy_session initial_sys) [] [(0, quiet)]).
  - vm_compute. reflexivity.
  - vm_compute. reflexivity.
Defined.

(** ** Invariants of the session *)

Section Invariants.

Lemma worker_alive_lookup s w wk :
  pool s !! w = Some wk -> worker_alive s w = is_alive wk.
Proof. unfold worker_alive. intros ->. reflexivity. Qed.

Lemma lookup_updated (l : list Worker) i j x y :
  l !! i = Some x ->
  <[i := y]> l !! j = (if decide (i = j) then Some y else l !! j).
Proof.
  intros Hi. destruct (decide (i = j)) as [<-|Hne].
  - apply list_lookup_insert_eq. eapply lookup_lt_Some, Hi.
  - apply list_lookup_insert_ne, Hne.
Qed.

(** *** [Consistent] is kept by every transition *)

Lemma consistent_initial : Consistent initial_sys.
Proof. split; [discriminate | auto]. Qed.

Lemma consistent_start_locked body s :
  Consistent s -> Consistent (start_locked body s).1.
Proof.
  intros H. unfold start_locked.
  destruct (running (shared s)) eqn:Hr; [exact H|].
  split; simpl; [intros _ | discriminate].
  eexists _, _. split; [reflexivity|].
  split; [apply list_lookup_middle; reflexivity|].
  simpl. rewrite length_app. simpl. repeat split. lia.
Qed.

Lemma consistent_stop_signal ev wk s :
  Consistent s -> Consistent (stop_signal ev wk s).
Proof.
  intros [H1 H2]. split; simpl; [|exact H2].
  intros Hr. destruct (H1 Hr) as (w & wk0 & Ht & Hw & Ha & He & Hlt).
  exists w, wk0. repeat split; auto.
  destruct ev; [rewrite length_insert|]; exact Hlt.
Qed.

Lemma consistent_stop_reset s : Consistent (stop_reset s).1.
Proof. split; simpl; [discriminate | auto]. Qed.

Lemma consistent_run_worker w o s :
  Consistent s -> Consistent (run_worker w o s).
Proof.
  intros [H1 H2]. destruct (pool s !! w) as [wk|] eqn:Hw;
    [|rewrite (run_worker_absent _ _ _ Hw); split; assumption].
  rewrite (run_worker_at _ _ _ _ Hw).
  destruct (worker_step_spec o (events s) (shared s) wk)
    as (_ & _ & Hev & [(Hr & Ht & He & Ha) | (Hr & Ht & He & _)]).
  - split; simpl; rewrite Hr, Ht, He; [|exact H2].
    intros Hrun. destruct (H1 Hrun) as (w0 & wk0 & Ht0 & Hw0 & Ha0 & He0 & Hlt).
    destruct (decide (w = w0)) as [<-|Hne].
    + assert (wk0 = wk) as -> by congruence.
      eexists w, _. split; [exact Ht0|].
      split; [apply list_lookup_insert_eq; eapply lookup_lt_Some, Hw|].
      rewrite Ha, Hev. auto.
    + exists w0, wk0. rewrite list_lookup_insert_ne by exact Hne. auto.
  - split; simpl; rewrite Hr; [discriminate | auto].
Qed.

Lemma consistent_step l s : Consistent s -> Consistent (step l s).1.
Proof.
  intros H. unfold step.
  destruct l, (ctl s); simpl;
    auto using consistent_start_locked, consistent_stop_signal,
      consistent_stop_reset, consistent_run_worker.
  - unfold stop_locked. destruct (running (shared s)); simpl; exact H.
  - apply (consistent_stop_reset s).
Qed.

Lemma reachable_consistent ok s : reachable_when ok s -> Consistent s.
Proof.
  induction 1 as [|l s _ IH _]; [apply consistent_initial|].
  apply consistent_step, IH.
Qed.

End Invariants.

Section SoleWorker.

Lemma sole_quiescent s :
  running (shared s) = false -> active_workers s = [] -> ctl s = Idle -> Sole s.
Proof.
  intros Hr Hnil Hc. unfold Sole. rewrite Hr, Hc.
  split; [|split; [discriminate | exact I]].
  intros w wk Hw Ha. rewrite (no_active_workers _ Hnil _ _ Hw) in Ha. discriminate.
Qed.

Lemma sole_start_locked body s :
  ctl s = Idle -> Sole s -> Sole (start_locked body s).1.
Proof.
  intros Hc HS. unfold start_locked.
  destruct (running (shared s)) eqn:Hr; [exact HS|].
  destruct HS as (H1 & H2 & H3). unfold Sole, worker_alive. simpl.
  split; [|split; [|exact I]].
  - intros w wk Hw Ha. split; [reflexivity|].
    apply lookup_app_Some in Hw as [Hw | [Hle Hw]].
    + destruct (H1 _ _ Hw Ha); congruence.
    + f_equal. apply list_lookup_singleton_Some in Hw as [Hw _]. lia.
  - intros _. eexists. split; [reflexivity|].
    rewrite list_lookup_middle by reflexivity. reflexivity.
Qed.

Lemma sole_start_reply s : Sole s -> Sole (start_reply s).1.
Proof. intros (H1 & H2 & _). exact (conj H1 (conj H2 I)). Qed.

Lemma sole_stop_locked s : Sole s -> Sole (stop_locked s).1.
Proof.
  intros HS. unfold stop_locked.
  destruct (running (shared s)) eqn:Hr; simpl; [|exact HS].
  destruct HS as (H1 & H2 & _).
  exact (conj H1 (conj H2 (fun _ => eq_refl))).
Qed.

Lemma sole_stop_signal ev wk s :
  ctl s = StopSignal ev wk -> Sole s -> Sole (stop_signal ev wk s).
Proof.
  intros Hc (H1 & H2 & H3). rewrite Hc in H3. exact (conj H1 (conj H2 H3)).
Qed.

Lemma sole_stop_reset wk s :
  ctl s = StopJoin wk -> joined wk s = true -> Sole s -> Sole (stop_reset s).1.
Proof.
  intros Hc Hj (H1 & H2 & H3). rewrite Hc in H3.
  unfold Sole. simpl. split; [|split; [discriminate | exact I]].
  intros w wk0 Hw Ha. exfalso.
  destruct (H1 _ _ Hw Ha) as [Hr Ht].
  rewrite <- (H3 Hr), Ht in Hj. simpl in Hj.
  rewrite (worker_alive_lookup _ _ _ Hw), Ha in Hj. discriminate.
Qed.

Lemma sole_run_worker w o s : Sole s -> Sole (run_worker w o s).
Proof.
  intros (H1 & H2 & H3). destruct (pool s !! w) as [wk|] eqn:Hw;
    [|rewrite (run_worker_absent _ _ _ Hw); exact (conj H1 (conj H2 H3))].
  rewrite (run_worker_at _ _ _ _ Hw).
  destruct (worker_step_spec o (events s) (shared s) wk)
    as (_ & _ & _ & [(Hr & Ht & _ & Ha) | (Hr & Ht & _ & Ha & Ha')]);
    unfold Sole, worker_alive; simpl; rewrite Hr, Ht.
  - split; [|split; [|exact H3]].
    + intros w0 wk0. rewrite (lookup_updated _ _ _ _ _ Hw).
      destruct (decide (w = w0)) as [<-|_]; [|apply H1].
      intros [= <-]. rewrite Ha. apply H1, Hw.
    + intros Hrun. destruct (H2 Hrun) as (w0 & Ht0 & Ha0).
      exists w0. split; [exact Ht0|].
      rewrite (lookup_updated _ _ _ _ _ Hw).
      destruct (decide (w = w0)) as [<-|_]; [|exact Ha0].
      simpl. rewrite Ha. rewrite (worker_alive_lookup _ _ _ Hw) in Ha0. exact Ha0.
  - split; [|split; [discriminate | destruct (ctl s); auto; discriminate]].
    intros w0 wk0. rewrite (lookup_updated _ _ _ _ _ Hw).
    destruct (decide (w = w0)) as [<-|Hne].
    + intros [= <-]. congruence.
    + intros Hw0 Ha0. exfalso. apply Hne.
      destruct (H1 _ _ Hw Ha) as [_ Ht1]. destruct (H1 _ _ Hw0 Ha0) as [_ Ht2].
      congruence.
Qed.

Lemma sole_step l s : Sole s -> waits_for_exit l s -> Sole (step l s).1.
Proof.
  intros H Hok. unfold step. unfold waits_for_exit in Hok.
  destruct l, (ctl s) eqn:Hc; simpl;
    eauto using sole_start_locked, sole_start_reply, sole_stop_locked,
      sole_stop_signal, sole_stop_reset, sole_run_worker.
  - apply (sole_start_reply s H).
  - apply (sole_stop_reset _ s Hc Hok H).
Qed.

Lemma reachable_patiently_sole s : reachable_patiently s -> Sole s.
Proof.
  induction 1 as [|l s _ IH Hok].
  - apply sole_quiescent; reflexivity.
  - apply sole_step; assumption.
Qed.

(** A run without the end of a [stop] keeps [Sole]. *)
Lemma sole_exec ls s :
  Forall (fun l => l <> StopReturn) ls -> Sole s -> Sole (exec ls s).
Proof.
  intros Hls. revert s. induction Hls as [|l ls Hl _ IH]; intros s H; [exact H|].
  rewrite exec_cons. apply IH, sole_step; [exact H|].
  unfold waits_for_exit. destruct l; try exact I. congruence.
Qed.

(** Counting: a list in which only position [w] can satisfy [P]. *)
Lemma filter_none {A} (P : A -> Prop) `{!forall x, Decision (P x)} (l : list A) :
  (forall i x, l !! i = Some x -> ~ P x) -> filter P l = [].
Proof.
  induction l as [|a l IH]; intros Hall; [reflexivity|].
  rewrite filter_cons_False by (apply (Hall 0); reflexivity).
  apply IH. intros i x Hi. apply (Hall (S i)). exact Hi.
Qed.

Lemma filter_at_most_one {A} (P : A -> Prop) `{!forall x, Decision (P x)}
    (l : list A) (w : nat) :
  (forall i x, l !! i = Some x -> P x -> i = w) ->
  length (filter P l) <= 1
  /\ (forall x, l !! w = Some x -> P x -> length (filter P l) = 1).
Proof.
  revert w. induction l as [|a l IH]; intros w Hall.
  - split; [simpl; lia | intros x Hx; discriminate Hx].
  - destruct (decide (P a)) as [Ha|Ha].
    + rewrite filter_cons_True by exact Ha.
      rewrite (filter_none P l); [simpl; split; [lia | reflexivity]|].
      intros i x Hi Hx. pose proof (Hall 0 a eq_refl Ha) as H0.
      pose proof (Hall (S i) x Hi Hx) as HS. lia.
    + rewrite filter_cons_False by exact Ha.
      destruct (IH (pred w)) as [Hle Hone].
      { intros i x Hi Hx. pose proof (Hall (S i) x Hi Hx). lia. }
      split; [exact Hle|]. intros x Hw Hx.
      destruct w as [|w]; [simpl in Hw; congruence|]. exact (Hone x Hw Hx).
Qed.

Lemma sole_count s :
  Sole s ->
  length (active_workers s) <= 1
  /\ (running (shared s) = true -> length (active_workers s) = 1).
Proof.
  intros (H1 & H2 & _). unfold active_workers.
  destruct (running (shared s)) eqn:Hr.
  - destruct (H2 eq_refl) as (w & Ht & Ha).
    destruct (filter_at_most_one (fun wk => is_alive wk = true) (pool s) w)
      as [Hle Hone].
    { intros i x Hi Hx. destruct (H1 _ _ Hi Hx) as [_ Hti]. congruence. }
    split; [exact Hle|]. intros _.
    unfold worker_alive in Ha. destruct (pool s !! w) as [wk|] eqn:Hw;
      [|discriminate]. exact (Hone wk eq_refl Ha).
  - rewrite filter_none; [simpl; split; [lia | discriminate]|].
    intros i x Hi Hx. destruct (H1 _ _ Hi Hx). discriminate.
Qed.

End SoleWorker.

(** ** Reachable states *)

Section Reachability.

Lemma reachable_exec ls s : reachable s -> reachable (exec ls s).
Proof.
  revert s. induction ls as [|l ls IH]; intros s H; [exact H|].
  rewrite exec_cons. apply IH. apply reach_step; [exact H | exact I].
Qed.

Lemma reachable_patiently_reachable s : reachable_patiently s -> reachable s.
Proof.
  induction 1 as [|l s _ IH _]; [apply reach_init|].
  apply reach_step; [exact IH | exact I].
Qed.

Lemma reachable_patiently_exec ls s :
  reachable_patiently s -> patient ls s = true -> reachable_patiently (exec ls s).
Proof.
  revert s. induction ls as [|l ls IH]; intros s H Hp; [exact H|].
  simpl in Hp. apply andb_true_iff in Hp as [Hl Hp].
  rewrite exec_cons. apply IH; [|exact Hp].
  apply reach_step; [exact H|].
  unfold waits_for_exit. destruct l; try exact I.
  destruct (ctl s); try exact I. exact Hl.
Qed.

End Reachability.

Example two_workers_eq :
  two_workers =
    {| shared := {| running := true; thread := Some 1; stop_event := Some 1;
                    translated_text := "Starting speech recognition...";
                    source_lang := Some "en"; target_lang := Some "en" |};
       pool := [mkWorker "en" "en" 0 Iterating [];
                mkWorker "en" "en" 1 Initializing []];
       events := [true; false];
       ctl := Idle |}.
Proof. vm_compute. reflexivity. Qed.

(** When the old worker then finishes its pass and returns, its clean exit
    clears the record of the new session, whose worker goes on. *)
Example orphan_clears_new_session :
  let s := exec (worker_steps [(0, quiet); (0, quiet); (0, quiet)]) two_workers in
  running (shared s) = false /\ stop_event (shared s) = None
  /\ active_workers s = [mkWorker "en" "en" 1 Initializing []].
Proof. vm_compute. repeat split. Qed.

(** C1, as stated, fails: after a [stop] whose join timed out and a second
    [start], [running] holds with two workers active. *)
Lemma two_active_workers_counterexample :
  ~ (forall s : Sys, reachable s ->
       (running (shared s) = true <->
          length (active_workers s) = 1 /\ stop_event (shared s) <> None)
       /\ length (active_workers s) <= 1).
Proof.
  intros H.
  destruct (H two_workers) as [_ Hle].
  - apply reachable_exec, reach_init.
  - rewrite two_workers_eq in Hle. vm_compute in Hle. lia.
Qed.

(** C1 (amended): at every point reachable by calls of [start] and [stop]
    and worker steps, [running] holds iff the stop event is not [None], iff
    the thread handle is not [None], and while it holds the recorded thread
    is an active worker that polls the recorded event.  At every point of
    the runs in which each [stop] waits until its worker has returned,
    [running] holds iff exactly one worker is active and the stop event is
    not [None], and two workers are never active at once. *)
Theorem session_invariant (s : Sys) :
  (reachable s ->
     (running (shared s) = true <-> stop_event (shared s) <> None)
     /\ (running (shared s) = true <-> thread (shared s) <> None)
     /\ (running (shared s) = true ->
           exists w wk, thread (shared s) = Some w /\ pool s !! w = Some wk
                        /\ is_alive wk = true
                        /\ stop_event (shared s) = Some (w_event wk)))
  /\ (reachable_patiently s ->
        (running (shared s) = true <->
           length (active_workers s) = 1 /\ stop_event (shared s) <> None)
        /\ length (active_workers s) <= 1).
Proof.
  assert (Hfields : Consistent s ->
            (running (shared s) = true <-> stop_event (shared s) <> None)
            /\ (running (shared s) = true <-> thread (shared s) <> None)).
  { intros [H1 H2]. destruct (running (shared s)) eqn:Hr.
    - destruct (H1 eq_refl) as (w & wk & Ht & _ & _ & He & _).
      rewrite Ht, He. repeat split; auto; discriminate.
    - destruct (H2 eq_refl) as [Ht He]. rewrite Ht, He.
      repeat split; try discriminate; intros Hn; exfalso; apply Hn; reflexivity. }
  split.
  - intros Hs. pose proof (reachable_consistent _ _ Hs) as HC.
    destruct (Hfields HC) as [Hev Hth]. refine (conj Hev (conj Hth _)).
    intros Hr. destruct HC as [H1 _].
    destruct (H1 Hr) as (w & wk & Ht & Hw & Ha & He & _). eauto 10.
  - intros Hs.
    pose proof (reachable_consistent _ _ Hs) as HC.
    destruct (Hfields HC) as [Hev _].
    destruct (sole_count _ (reachable_patiently_sole _ Hs)) as [Hle Hone].
    split; [|exact Hle]. split.
    + intros Hr. split; [exact (Hone Hr) | apply Hev, Hr].
    + intros [_ Hn]. apply Hev, Hn.
Qed.

Lemma session_invariant_witness :
  let s := exec patient_stop initial_sys in
  ((running (shared s) = true <-> stop_event (shared s) <> None)
   /\ (running (shared s) = true <-> thread (shared s) <> None)
   /\ (running (shared s) = true ->
         exists w wk, thread (shared s) = Some w /\ pool s !! w = Some wk
                      /\ is_alive wk = true
                      /\ stop_event (shared s) = Some (w_event wk)))
  /\ ((running (shared s) = true <->
         length (active_workers s) = 1 /\ stop_event (shared s) <> None)
      /\ length (active_workers s) <= 1).
Proof.
  split.
  - apply (proj1 (session_invariant (exec patient_stop initial_sys))).
    apply reachable_exec, reach_init.
  - apply (proj2 (session_invariant (exec patient_stop initial_sys))).
    apply reachable_patiently_exec; [apply reach_init|].
    vm_compute. reflexivity.
Defined.

(** ** [start] *)

Section StartCalls.

Lemma start_locked_running body s :
  running (shared s) = true ->
  start_locked body s =
    (s, Some (Json [("message", JStr "Already running");
                    ("translatedText", JStr (translated_text (shared s)))] 200)).
Proof. unfold start_locked. intros ->. reflexivity. Qed.

Lemma start_locked_spawns body s :
  running (shared s) = false ->
  ctl (start_locked body s).1 = StartReply
  /\ running (shared (start_locked body s).1) = true
  /\ source_lang (shared (start_locked body s).1)
     = Some (dict_get (default ∅ body) "sourceLang" "en")
  /\ target_lang (shared (start_locked body s).1)
     = Some (dict_get (default ∅ body) "targetLang" "en")
  /\ (start_locked body s).2 = None.
Proof. unfold start_locked. intros ->. repeat split. Qed.

(** A [start] that finds a session running only lets the workers go on. *)
Lemma start_running s body sched :
  ctl s = Idle -> running (shared s) = true ->
  exec (start body sched) s = exec (worker_steps sched) s
  /\ replies (start body sched) s
     = [Json [("message", JStr "Already running");
              ("translatedText", JStr (translated_text (shared s)))] 200].
Proof.
  intros Hc Hr. unfold start.
  destruct (step_enabled s) as (Hstart & _).
  rewrite exec_cons, replies_cons, (Hstart body Hc), (start_locked_running _ _ Hr).
  simpl. rewrite exec_app, replies_app, exec_cons, replies_cons.
  destruct (worker_steps_frame sched s) as (Hc1 & _ & _ & _ & _ & _ & Hq1).
  rewrite Hc in Hc1. destruct (step_disabled _ Hc1) as (Hret & _).
  rewrite Hret, Hq1. auto.
Qed.

(** A [start] that finds no session: the state when the call returns. *)
Lemma start_spawning s body sched :
  ctl s = Idle -> running (shared s) = false ->
  exec (start body sched) s
    = with_ctl Idle (exec (worker_steps sched) (start_locked body s).1).
Proof.
  intros Hc Hr. unfold start.
  destruct (step_enabled s) as (Hstart & _).
  rewrite exec_cons, (Hstart body Hc), exec_app, exec_cons.
  destruct (start_locked_spawns body s Hr) as (Hc0 & _).
  destruct (worker_steps_frame sched (start_locked body s).1) as (Hc1 & _).
  rewrite Hc0 in Hc1.
  destruct (step_enabled (exec (worker_steps sched) (start_locked body s).1))
    as (_ & Hret & _).
  rewrite (Hret Hc1). reflexivity.
Qed.

Lemma start_returns_idle s body sched :
  ctl s = Idle -> ctl (exec (start body sched) s) = Idle.
Proof.
  intros Hc. destruct (running (shared s)) eqn:Hr.
  - destruct (start_running s body sched Hc Hr) as [-> _].
    destruct (worker_steps_frame sched s) as (Hc1 & _). congruence.
  - rewrite (start_spawning s body sched Hc Hr). reflexivity.
Qed.

Lemma start_leaves_running s body :
  ctl s = Idle -> running (shared (exec (start body []) s)) = true.
Proof.
  intros Hc. destruct (running (shared s)) eqn:Hr.
  - destruct (start_running s body [] Hc Hr) as [-> _]. exact Hr.
  - rewrite (start_spawning s body [] Hc Hr). simpl.
    apply (start_locked_spawns body s Hr).
Qed.

Lemma worker_steps_not_return sched :
  Forall (fun l => l <> StopReturn) (worker_steps sched).
Proof.
  induction sched as [|[w o] sched IH]; [constructor|].
  rewrite worker_steps_cons. constructor; [discriminate | exact IH].
Qed.

Lemma start_not_return body sched :
  Forall (fun l => l <> StopReturn) (start body sched).
Proof.
  unfold start. constructor; [discriminate|].
  apply Forall_app. split; [apply worker_steps_not_return|].
  constructor; [discriminate | constructor].
Qed.

End StartCalls.

Lemma sole_count_exact s :
  Sole s -> length (active_workers s) = (if running (shared s) then 1 else 0).
Proof.
  intros HS. destruct (sole_count s HS) as [_ Hone].
  destruct (running (shared s)) eqn:Hr; [exact (Hone eq_refl)|].
  destruct HS as (H1 & _). unfold active_workers.
  rewrite filter_none; [reflexivity|].
  intros i x Hi Hx. destruct (H1 _ _ Hi Hx) as [Htrue _]. congruence.
Qed.

(** C3, as stated, fails: after a [stop] whose join timed out the old
    worker is still alive, and two calls of [start] with no [stop] between
    them leave two active workers, the old one and the one the first call
    spawned. *)
Lemma two_starts_counterexample :
  ~ (forall (s : Sys) body1 sched1 between body2 sched2,
        reachable s -> ctl s = Idle ->
        length (active_workers
                  (exec (start body1 sched1 ++ worker_steps between
                           ++ start body2 sched2) s))
        = 1).
Proof.
  intros H.
  specialize (H (exec orphan_session initial_sys) None [] [] None []).
  assert (Hr : reachable (exec orphan_session initial_sys))
    by apply reachable_exec, reach_init.
  specialize (H Hr eq_refl). vm_compute in H. discriminate H.
Qed.

(** Nor is one worker left when the only worker fails to open the
    microphone while the second call is under way. *)
Example two_starts_no_worker :
  active_workers (exec (start None [] ++ start None [(0, no_microphone)]) initial_sys)
  = [].
Proof. vm_compute. reflexivity. Qed.

(** C3 (amended): a [start] that finds a session running replies
    ["Already running"] with the current text and status 200, creates no
    worker and no event, and leaves the record and the control plane as
    they were; what changes during the call is the workers' doing.  At any
    point of a run in which no join has timed out, two calls of [start]
    with no [stop] between them, whatever the workers do meanwhile, leave
    exactly one active worker while [running] holds, which it does when no
    worker step follows the locked block of the second call, and none once
    the worker has failed to initialise; never two. *)
Theorem start_when_running :
  (forall (s : Sys) body sched,
      ctl s = Idle -> running (shared s) = true ->
      step (CallStart body) s
        = (s, Some (Json [("message", JStr "Already running");
                          ("translatedText", JStr (translated_text (shared s)))] 200))
      /\ exec (start body []) s = s
      /\ exec (start body sched) s = exec (worker_steps sched) s
      /\ replies (start body sched) s
         = [Json [("message", JStr "Already running");
                  ("translatedText", JStr (translated_text (shared s)))] 200])
  /\ (forall (s : Sys) body1 sched1 between body2 sched2,
        reachable_patiently s -> ctl s = Idle ->
        let s' := exec (start body1 sched1 ++ worker_steps between
                          ++ start body2 sched2) s in
        length (active_workers s') = (if running (shared s') then 1 else 0)
        /\ (sched2 = [] -> length (active_workers s') = 1)).
Proof.
  split.
  - intros s body sched Hc Hr.
    destruct (step_enabled s) as (Hstart & _).
    destruct (start_running s body [] Hc Hr) as (He0 & _).
    destruct (start_running s body sched Hc Hr) as (He & Hq).
    rewrite (Hstart body Hc), (start_locked_running _ _ Hr). auto.
  - intros s body1 sched1 between body2 sched2 Hs Hc. cbv zeta.
    assert (HS : Sole (exec (start body1 sched1 ++ worker_steps between
                               ++ start body2 sched2) s)).
    { apply sole_exec; [|apply reachable_patiently_sole, Hs].
      apply Forall_app. split; [apply start_not_return|].
      apply Forall_app. split; [apply worker_steps_not_return | apply start_not_return]. }
    split; [exact (sole_count_exact _ HS)|].
    intros ->. rewrite (sole_count_exact _ HS).
    rewrite !exec_app, start_leaves_running; [reflexivity|].
    destruct (worker_steps_frame between (exec (start body1 sched1) s)) as (-> & _).
    apply start_returns_idle, Hc.
Qed.

Lemma start_when_running_witness :
  let s := exec busy_session initial_sys in
  (step (CallStart None) s
     = (s, Some (Json [("message", JStr "Already running");
                       ("translatedText", JStr (translated_text (shared s)))] 200))
   /\ exec (start None []) s = s
   /\ exec (start None [(0, quiet)]) s = exec (worker_steps [(0, quiet)]) s
   /\ replies (start None [(0, quiet)]) s
      = [Json [("message", JStr "Already running");
               ("translatedText", JStr (translated_text (shared s)))] 200])
  /\ (let s' := exec (start None [(0, quiet)]
                        ++ worker_steps [(0, hears UnknownValueError auto_only)]
                        ++ start (request_body "ko" "gu") []) initial_sys in
      length (active_workers s') = (if running (shared s') then 1 else 0)
      /\ (@nil (nat * World) = [] -> length (active_workers s') = 1)).
Proof.
  split.
  - apply (proj1 start_when_running (exec busy_session initial_sys) None [(0, quiet)]).
    + vm_compute. reflexivity.
    + vm_compute. reflexivity.
  - apply (proj2 start_when_running initial_sys None [(0, quiet)]
             [(0, hears UnknownValueError auto_only)] (request_body "ko" "gu") []).
    + apply reach_init.
    + reflexivity.
Defined.

(** A worker whose microphone cannot be opened returns at once; the next
    [start] spawns a second worker, the only live one. *)
Example start_after_microphone_error :
  let no_mic := mkWorld (Raises "No Default Input Device Available") (Returns tt)
                  WaitTimeoutError (fun _ => UnknownValueError)
                  (fun _ _ _ => Raises "offline") in
  let s := exec (start None [(0, no_mic)]) initial_sys in
  status s
    = Json [("running", JBool false);
            ("translatedText",
             JStr "Microphone error: No Default Input Device Available");
            ("sourceLang", JStr "en"); ("targetLang", JStr "en")] 200
  /\ active_workers (exec (start None []) s) = [mkWorker "en" "en" 1 Initializing []].
Proof. vm_compute. split; reflexivity. Qed.

(** ** The languages of the session *)

Section Languages.

Lemma request_body_get src tgt :
  dict_get (default ∅ (request_body src tgt)) "sourceLang" "en" = src
  /\ dict_get (default ∅ (request_body src tgt)) "targetLang" "en" = tgt.
Proof.
  unfold request_body, dict_get. simpl. split.
  - rewrite lookup_insert_eq. reflexivity.
  - rewrite lookup_insert_ne by discriminate. rewrite lookup_insert_eq. reflexivity.
Qed.

(** Only the locked block of [start] writes the languages. *)
Lemma step_languages l s : ~ is_call_start l -> languages (step l s).1 = languages s.
Proof.
  intros Hl. unfold step, languages.
  destruct l; try (exfalso; apply Hl; exact I);
    destruct (ctl s); simpl; try reflexivity.
  - unfold stop_locked. destruct (running (shared s)); reflexivity.
  - destruct (run_worker_frame w o s) as (_ & _ & -> & -> & _). reflexivity.
  - destruct (run_worker_frame w o s) as (_ & _ & -> & -> & _). reflexivity.
  - destruct (run_worker_frame w o s) as (_ & _ & -> & -> & _). reflexivity.
  - destruct (run_worker_frame w o s) as (_ & _ & -> & -> & _). reflexivity.
Qed.

Lemma exec_languages ls s :
  Forall (fun l => ~ is_call_start l) ls -> languages (exec ls s) = languages s.
Proof.
  intros Hls. revert s. induction Hls as [|l ls Hl _ IH]; intros s; [reflexivity|].
  rewrite exec_cons, IH. apply step_languages, Hl.
Qed.

Lemma worker_steps_not_start sched :
  Forall (fun l => ~ is_call_start l) (worker_steps sched).
Proof.
  induction sched as [|[w o] sched IH]; [constructor|].
  rewrite worker_steps_cons. constructor; [intros [] | exact IH].
Qed.

Lemma stop_not_start before_set during_join :
  Forall (fun l => ~ is_call_start l) (stop before_set during_join).
Proof.
  unfold stop. constructor; [intros []|].
  apply Forall_app. split; [apply worker_steps_not_start|].
  constructor; [intros []|].
  apply Forall_app. split; [apply worker_steps_not_start|].
  constructor; [intros [] | constructor].
Qed.

(** Whatever it finds, a call of [stop] ends with [running] false. *)
Lemma stop_ends_not_running s before_set during_join :
  ctl s = Idle -> running (shared (exec (stop before_set during_join) s)) = false.
Proof.
  intros Hc. destruct (running (shared s)) eqn:Hr.
  - destruct (stop_running s before_set during_join Hc Hr) as [He _].
    cbv zeta in He. rewrite He. reflexivity.
  - destruct (stop_not_running s before_set during_join Hc Hr) as [-> _].
    apply worker_steps_frame, Hr.
Qed.

End Languages.

(** C10, as stated, fails for a [start] that finds a session running: it
    returns before it records its languages, so after the [stop] the
    [status] reports the languages of the earlier [start], ["en"] and
    ["hi"], not the ["ko"] and ["gu"] just passed. *)
Lemma start_while_running_counterexample :
  ~ (forall (s : Sys) (src tgt : string),
        reachable s -> ctl s = Idle ->
        let s' := exec (start (request_body src tgt) [] ++ stop [] []) s in
        status s'
          = Json [("running", JBool false);
                  ("translatedText", JStr (translated_text (shared s')));
                  ("sourceLang", JStr src); ("targetLang", JStr tgt)] 200).
Proof.
  intros H.
  specialize (H (exec (start (request_body "en" "hi") []) initial_sys) "ko" "gu").
  assert (Hr : reachable (exec (start (request_body "en" "hi") []) initial_sys))
    by apply reachable_exec, reach_init.
  specialize (H Hr eq_refl). vm_compute in H. discriminate H.
Qed.

(** C10 (amended): a call of [stop], whatever it finds and whatever the
    workers do during it, leaves [source_lang] and [target_lang] as they
    were.  So after a [start] with languages [src] and [tgt] that finds no
    session running, then a [stop], a later [status] reports
    [running=false] and exactly [src] and [tgt], not normalised and not
    null; after a [start] that finds a session running, then a [stop], it
    reports the languages the record held before that [start]. *)
Theorem stop_keeps_languages :
  (forall (s : Sys) before_set during_join,
      source_lang (shared (exec (stop before_set during_join) s))
        = source_lang (shared s)
      /\ target_lang (shared (exec (stop before_set during_join) s))
         = target_lang (shared s))
  /\ (forall (s : Sys) src tgt sched between before_set during_join after,
        ctl s = Idle -> running (shared s) = false ->
        let s' := exec (start (request_body src tgt) sched ++ worker_steps between
                          ++ stop before_set during_join ++ worker_steps after) s in
        status s'
          = Json [("running", JBool false);
                  ("translatedText", JStr (translated_text (shared s')));
                  ("sourceLang", JStr src); ("targetLang", JStr tgt)] 200)
  /\ (forall (s : Sys) src tgt sched between before_set during_join after,
        ctl s = Idle -> running (shared s) = true ->
        let s' := exec (start (request_body src tgt) sched ++ worker_steps between
                          ++ stop before_set during_join ++ worker_steps after) s in
        status s'
          = Json [("running", JBool false);
                  ("translatedText", JStr (translated_text (shared s')));
                  ("sourceLang", JOpt (source_lang (shared s)));
                  ("targetLang", JOpt (target_lang (shared s)))] 200).
Proof.
  refine (conj _ (conj _ _)).
  - intros s before_set during_join.
    pose proof (exec_languages _ s (stop_not_start before_set during_join)) as H.
    unfold languages in H. split; congruence.
  - intros s src tgt sched between before_set during_join after Hc Hr. cbv zeta.
    rewrite !exec_app.
    set (s1 := exec (start (request_body src tgt) sched) s).
    set (s2 := exec (worker_steps between) s1).
    set (s3 := exec (stop before_set during_join) s2).
    assert (Hl1 : languages s1 = (Some src, Some tgt)).
    { unfold s1. rewrite (start_spawning _ _ _ Hc Hr). unfold languages. simpl.
      destruct (worker_steps_frame sched (start_locked (request_body src tgt) s).1)
        as (_ & _ & -> & -> & _).
      destruct (start_locked_spawns (request_body src tgt) s Hr)
        as (_ & _ & -> & -> & _).
      destruct (request_body_get src tgt) as [-> ->]. reflexivity. }
    assert (Hc2 : ctl s2 = Idle).
    { unfold s2. destruct (worker_steps_frame between s1) as (-> & _).
      apply start_returns_idle, Hc. }
    assert (Hl : languages (exec (worker_steps after) s3) = (Some src, Some tgt)).
    { rewrite (exec_languages _ _ (worker_steps_not_start after)). unfold s3.
      rewrite (exec_languages _ _ (stop_not_start before_set during_join)). unfold s2.
      rewrite (exec_languages _ _ (worker_steps_not_start between)). exact Hl1. }
    assert (Hrun : running (shared (exec (worker_steps after) s3)) = false).
    { apply worker_steps_frame. apply stop_ends_not_running, Hc2. }
    unfold status. unfold languages in Hl. injection Hl as -> ->. rewrite Hrun.
    reflexivity.
  - intros s src tgt sched between before_set during_join after Hc Hr. cbv zeta.
    rewrite !exec_app.
    set (s1 := exec (start (request_body src tgt) sched) s).
    set (s2 := exec (worker_steps between) s1).
    set (s3 := exec (stop before_set during_join) s2).
    assert (Hl1 : languages s1 = languages s).
    { unfold s1. destruct (start_running s (request_body src tgt) sched Hc Hr) as [-> _].
      apply exec_languages, worker_steps_not_start. }
    assert (Hc2 : ctl s2 = Idle).
    { unfold s2. destruct (worker_steps_frame between s1) as (-> & _).
      apply start_returns_idle, Hc. }
    assert (Hl : languages (exec (worker_steps after) s3) = languages s).
    { rewrite (exec_languages _ _ (worker_steps_not_start after)). unfold s3.
      rewrite (exec_languages _ _ (stop_not_start before_set during_join)). unfold s2.
      rewrite (exec_languages _ _ (worker_steps_not_start between)). exact Hl1. }
    assert (Hrun : running (shared (exec (worker_steps after) s3)) = false).
    { apply worker_steps_frame. apply stop_ends_not_running, Hc2. }
    unfold status. unfold languages in Hl. injection Hl as -> ->. rewrite Hrun.
    reflexivity.
Qed.

Lemma stop_keeps_languages_witness :
  (let s := exec busy_session initial_sys in
   source_lang (shared (exec (stop [] [(0, quiet)]) s)) = source_lang (shared s)
   /\ target_lang (shared (exec (stop [] [(0, quiet)]) s)) = target_lang (shared s))
  /\ (let s' := exec (start (request_body "ZH" " ko ") [] ++ worker_steps [(0, quiet)]
                        ++ stop [] [] ++ worker_steps [(0, quiet)]) initial_sys in
      status s'
        = Json [("running", JBool false);
                ("translatedText", JStr (translated_text (shared s')));
                ("sourceLang", JStr "ZH"); ("targetLang", JStr " ko ")] 200)
  /\ (let s := exec busy_session initial_sys in
      let s' := exec (start (request_body "ko" "gu") [] ++ worker_steps [(0, quiet)]
                        ++ stop [] [] ++ worker_steps [(0, quiet)]) s in
      status s'
        = Json [("running", JBool false);
                ("translatedText", JStr (translated_text (shared s')));
                ("sourceLang", JOpt (source_lang (shared s)));
                ("targetLang", JOpt (target_lang (shared s)))] 200).
Proof.
  refine (conj _ (conj _ _)).
  - apply (proj1 stop_keeps_languages).
  - apply (proj1 (proj2 stop_keeps_languages) initial_sys "ZH" " ko " [] [(0, quiet)]
             [] [] [(0, quiet)]); reflexivity.
  - apply (proj2 (proj2 stop_keeps_languages) (exec busy_session initial_sys)
             "ko" "gu" [] [(0, quiet)] [] [] [(0, quiet)]).
    + vm_compute. reflexivity.
    + vm_compute. reflexivity.
Defined.

(** ** Static files *)

Section StaticFiles.
Import Static.

Lemma normpath_step_clean (acc p : path) :
  climbs_nowhere p ->
  foldl (fun acc c => if decide (c = "..") then removelast acc else (acc ++ [c])%list) acc p
  = (acc ++ p)%list.
Proof.
  intros Hp. revert acc. induction Hp as [|c p Hc _ IH]; intros acc; simpl.
  - rewrite app_nil_r. reflexivity.
  - destruct (decide (c = "..")) as [Heq|_]; [contradiction|].
    rewrite IH, <- app_assoc. reflexivity.
Qed.

Lemma removelast_climbs_nowhere (p : path) :
  climbs_nowhere p -> climbs_nowhere (removelast p).
Proof.
  induction 1 as [|c p Hc Hp IH]; [constructor|].
  destruct p as [|c' p]; [constructor|].
  change (removelast (c :: c' :: p)) with (c :: removelast (c' :: p)).
  constructor; assumption.
Qed.

Lemma normpath_from_clean (acc p : path) :
  climbs_nowhere acc ->
  climbs_nowhere
    (foldl (fun acc c => if decide (c = "..") then removelast acc else (acc ++ [c])%list)
       acc p).
Proof.
  revert acc. induction p as [|c p IH]; intros acc Hacc; simpl; [exact Hacc|].
  apply IH. destruct (decide (c = "..")) as [_|Hne].
  - apply removelast_climbs_nowhere, Hacc.
  - apply Forall_app. split; [exact Hacc|]. constructor; [exact Hne | constructor].
Qed.

Lemma normpath_climbs_nowhere (p : path) : climbs_nowhere (normpath p).
Proof. apply normpath_from_clean. constructor. Qed.

Lemma normpath_clean (p : path) : climbs_nowhere p -> normpath p = p.
Proof. intros Hp. unfold normpath. rewrite (normpath_step_clean [] p Hp). reflexivity. Qed.

Lemma api_path_cases (filename : string) :
  filename ∈ API_PATHS -> filename = "start" \/ filename = "stop" \/ filename = "status".
Proof.
  unfold API_PATHS. rewrite elem_of_list_to_set, !elem_of_cons, elem_of_nil. tauto.
Qed.

(** Without symbolic links, the three API names resolve to entries of the
    serving root itself. *)
Lemma api_path_inside_root (files : list path) (module_file : path) (filename : string) :
  filename ∈ API_PATHS ->
  inside_root (plain_fs files) module_file (target (plain_fs files) module_file filename)
  = true.
Proof.
  intros Hin. unfold inside_root, target. apply bool_decide_eq_true.
  set (root := FRONTEND_DIR (plain_fs files) module_file).
  assert (Hroot : climbs_nowhere root).
  { unfold root, FRONTEND_DIR, PROJECT_ROOT, parent. simpl.
    do 2 apply removelast_climbs_nowhere. apply normpath_climbs_nowhere. }
  assert (Hjoin : exists c, joinpath root filename = (root ++ [c])%list /\ c <> "..").
  { destruct (api_path_cases _ Hin) as [-> | [-> | ->]];
      eexists; (split; [reflexivity | discriminate]). }
  destruct Hjoin as (c & -> & Hc). simpl.
  rewrite normpath_clean.
  - exists [c]. reflexivity.
  - apply Forall_app. split; [exact Hroot|]. constructor; [exact Hc | constructor].
Qed.

End StaticFiles.

(** C9: a request for a static file (any name but the three API paths,
    which the route answers 404 before it looks at the file system) whose
    resolved target is not under [FRONTEND_DIR] is answered 403; whatever
    the name, such a request is never answered with a file; and a file is
    sent only when the target is under the root, is a regular file and has
    an allow-listed suffix.  On a file system without symbolic links the
    API paths resolve inside the root, so there every request whose target
    is outside it is answered 403. *)
Theorem static_escape_forbidden :
  (forall (fs : Static.FileSystem) (module_file : Static.path) (filename : string),
      filename ∉ Static.API_PATHS ->
      Static.inside_root fs module_file (Static.target fs module_file filename) = false ->
      Static.serve_static_file fs module_file filename = Abort 403)
  /\ (forall (fs : Static.FileSystem) (module_file : Static.path) (filename : string),
        Static.inside_root fs module_file (Static.target fs module_file filename) = false ->
        forall d f, Static.serve_static_file fs module_file filename
                    <> SendFromDirectory d f)
  /\ (forall (fs : Static.FileSystem) (module_file : Static.path) (filename : string) d f,
        Static.serve_static_file fs module_file filename = SendFromDirectory d f ->
        Static.inside_root fs module_file (Static.target fs module_file filename) = true
        /\ Static.is_file fs (Static.target fs module_file filename) = true
        /\ (Static.suffix (Static.target fs module_file filename)
              ∈ Static.ALLOWED_STATIC_EXTS)
        /\ (filename ∉ Static.API_PATHS)
        /\ d = Static.FRONTEND_DIR fs module_file /\ f = filename)
  /\ (forall (files : list Static.path) (module_file : Static.path) (filename : string),
        Static.inside_root (Static.plain_fs files) module_file
          (Static.target (Static.plain_fs files) module_file filename) = false ->
        Static.serve_static_file (Static.plain_fs files) module_file filename = Abort 403).
Proof.
  refine (conj _ (conj _ (conj _ _))).
  - intros fs module_file filename Hapi Hout. unfold Static.serve_static_file.
    rewrite bool_decide_eq_false_2 by exact Hapi. rewrite Hout. reflexivity.
  - intros fs module_file filename Hout d f. unfold Static.serve_static_file.
    rewrite Hout. destruct (bool_decide _); discriminate.
  - intros fs module_file filename d f. unfold Static.serve_static_file.
    destruct (bool_decide (filename ∈ Static.API_PATHS)) eqn:Hapi; [discriminate|].
    destruct (Static.inside_root _ _ _) eqn:Hin; simpl; [|discriminate].
    destruct (Static.is_file _ _) eqn:Hfile; simpl; [|discriminate].
    destruct (bool_decide (_ ∈ Static.ALLOWED_STATIC_EXTS)) eqn:Hext; [|discriminate].
    intros [= <- <-].
    apply bool_decide_eq_false in Hapi. apply bool_decide_eq_true in Hext. auto 10.
  - intros files module_file filename Hout. unfold Static.serve_static_file.
    destruct (bool_decide (filename ∈ Static.API_PATHS)) eqn:Hapi.
    + apply bool_decide_eq_true in Hapi.
      rewrite (api_path_inside_root files module_file filename Hapi) in Hout.
      discriminate.
    + rewrite Hout. reflexivity.
Qed.

Lemma static_escape_forbidden_witness :
  Static.serve_static_file sample_fs sample_module_file "../secret.js" = Abort 403
  /\ (forall d f, Static.serve_static_file sample_fs sample_module_file "css/../../secret.js"
                  <> SendFromDirectory d f)
  /\ (Static.inside_root sample_fs sample_module_file
        (Static.target sample_fs sample_module_file "app.js") = true
      /\ Static.is_file sample_fs (Static.target sample_fs sample_module_file "app.js") = true
      /\ (Static.suffix (Static.target sample_fs sample_module_file "app.js")
            ∈ Static.ALLOWED_STATIC_EXTS)
      /\ ("app.js" ∉ Static.API_PATHS)
      /\ ["srv"; "site"] = Static.FRONTEND_DIR sample_fs sample_module_file
      /\ "app.js" = "app.js")
  /\ Static.serve_static_file sample_fs sample_module_file "/etc/passwd" = Abort 403.
Proof.
  refine (conj _ (conj _ (conj _ _))).
  - apply (proj1 static_escape_forbidden sample_fs sample_module_file "../secret.js").
    + vm_compute. intros H. discriminate H.
    + vm_compute. reflexivity.
  - apply (proj1 (proj2 static_escape_forbidden) sample_fs sample_module_file).
    vm_compute. reflexivity.
  - apply (proj1 (proj2 (proj2 static_escape_forbidden)) sample_fs sample_module_file).
    vm_compute. reflexivity.
  - apply (proj2 (proj2 (proj2 static_escape_forbidden))
             [["srv"; "site"; "app.js"]; ["srv"; "secret.js"];
              ["srv"; "site"; "server"; "app.py"]] sample_module_file).
    vm_compute. reflexivity.
Defined.

(** * Further properties *)

(** ** The two tables *)

Section Tables.

Lemma lower_char_idem a : PyStr.lower_char (PyStr.lower_char a) = PyStr.lower_char a.
Proof. destruct a as [[] [] [] [] [] [] [] []]; reflexivity. Qed.

Lemma isspace_lower_char a : PyStr.isspace (PyStr.lower_char a) = PyStr.isspace a.
Proof. destruct a as [[] [] [] [] [] [] [] []]; reflexivity. Qed.

Lemma lower_idem s : PyStr.lower (PyStr.lower s) = PyStr.lower s.
Proof. induction s as [|a s IH]; simpl; [reflexivity|]. rewrite lower_char_idem, IH. reflexivity. Qed.

Lemma lstrip_lower s : PyStr.lstrip (PyStr.lower s) = PyStr.lower (PyStr.lstrip s).
Proof.
  induction s as [|a s IH]; simpl; [reflexivity|].
  rewrite isspace_lower_char. destruct (PyStr.isspace a); [exact IH | reflexivity].
Qed.

Lemma rstrip_lower s : PyStr.rstrip (PyStr.lower s) = PyStr.lower (PyStr.rstrip s).
Proof.
  induction s as [|a s IH]; simpl; [reflexivity|].
  rewrite IH, isspace_lower_char.
  destruct (PyStr.rstrip s); simpl; [destruct (PyStr.isspace a)|]; reflexivity.
Qed.

Lemma strip_lower s : PyStr.strip (PyStr.lower s) = PyStr.lower (PyStr.strip s).
Proof. unfold PyStr.strip. rewrite lstrip_lower, rstrip_lower. reflexivity. Qed.

Lemma lookup_key_strip code : lookup_key code = PyStr.strip code.
Proof. unfold lookup_key, PyStr.or_. destruct code; reflexivity. Qed.

(** What the two tables hold at a key: the two codes of one language, in
    which case the lowercased key holds the same, or nothing in both. *)
Lemma tables_at k :
  (exists p, p ∈ LANGUAGE_PAIRS
             /\ SR_LANG_MAP !! k = Some p.1 /\ TR_LANG_MAP !! k = Some p.2
             /\ SR_LANG_MAP !! PyStr.lower k = Some p.1
             /\ TR_LANG_MAP !! PyStr.lower k = Some p.2)
  \/ (SR_LANG_MAP !! k = None /\ TR_LANG_MAP !! k = None).
Proof.
  destruct (SR_LANG_MAP !! k) as [v|] eqn:Hk.
  - left. unfold SR_LANG_MAP in Hk. apply elem_of_list_to_map_2 in Hk.
    repeat (apply elem_of_cons in Hk as [Hk|Hk];
            [injection Hk as -> ->; eexists (_, _);
             split; [|repeat split; vm_compute; reflexivity];
             unfold LANGUAGE_PAIRS; rewrite !elem_of_cons; tauto|]).
    apply elem_of_nil in Hk. contradiction.
  - right. split; [reflexivity|].
    unfold SR_LANG_MAP in Hk. apply not_elem_of_list_to_map_2 in Hk.
    unfold TR_LANG_MAP. apply not_elem_of_list_to_map_1. exact Hk.
Qed.

(** Both normalisers amount to one lookup of the stripped, lowercased
    input: the exact-match attempt never changes the result. *)
Lemma normalize_by_lower code :
  normalize_sr_lang code
    = default "en-US" (SR_LANG_MAP !! PyStr.lower (PyStr.strip code))
  /\ normalize_tr_lang code
      = default "en" (TR_LANG_MAP !! PyStr.lower (PyStr.strip code)).
Proof.
  rewrite normalize_sr_lang_eq, normalize_tr_lang_eq, lookup_key_strip.
  destruct (tables_at (PyStr.strip code)) as [(p & _ & -> & -> & -> & ->) | [-> ->]];
    split; reflexivity.
Qed.

End Tables.

(** X1: whatever the input, the two normalisers return the recognition
    locale and the translation code of one and the same language, one of
    the five of the tables. *)
Theorem normalize_same_language (code : string) :
  (normalize_sr_lang code, normalize_tr_lang code) ∈ LANGUAGE_PAIRS.
Proof.
  destruct (normalize_by_lower code) as [-> ->].
  destruct (tables_at (PyStr.lower (PyStr.strip code)))
    as [([sr tr] & Hin & -> & -> & _) | [-> ->]]; simpl.
  - exact Hin.
  - unfold LANGUAGE_PAIRS. rewrite !elem_of_cons. tauto.
Qed.

(** X2: normalisation does not see the case of its input: two inputs that
    are equal once lowercased are normalised alike. *)
Theorem normalize_case_insensitive (a b : string) :
  PyStr.lower a = PyStr.lower b ->
  normalize_sr_lang a = normalize_sr_lang b
  /\ normalize_tr_lang a = normalize_tr_lang b.
Proof.
  intros Hab.
  destruct (normalize_by_lower a) as [-> ->].
  destruct (normalize_by_lower b) as [-> ->].
  rewrite <- !strip_lower, Hab. split; reflexivity.
Qed.

Lemma normalize_case_insensitive_witness :
  normalize_sr_lang "Zh-cN" = normalize_sr_lang "ZH-CN"
  /\ normalize_tr_lang "Zh-cN" = normalize_tr_lang "ZH-CN".
Proof. apply (normalize_case_insensitive "Zh-cN" "ZH-CN"). reflexivity. Defined.

(** ** Surrounding white space *)

Section Padding.

Lemma lstrip_blank_app l t : blank l = true -> PyStr.lstrip (l ++ t) = PyStr.lstrip t.
Proof.
  induction l as [|a l IH]; simpl; [reflexivity|].
  intros [Ha Hl]%andb_true_iff. rewrite Ha. exact (IH Hl).
Qed.

Lemma lstrip_blank r : blank r = true -> PyStr.lstrip r = "".
Proof.
  induction r as [|a r IH]; simpl; [reflexivity|].
  intros [Ha Hr]%andb_true_iff. rewrite Ha. exact (IH Hr).
Qed.

Lemma rstrip_blank r : blank r = true -> PyStr.rstrip r = "".
Proof.
  induction r as [|a r IH]; simpl; [reflexivity|].
  intros [Ha Hr]%andb_true_iff. rewrite (IH Hr), Ha. reflexivity.
Qed.

Lemma rstrip_app_blank t r : blank r = true -> PyStr.rstrip (t ++ r) = PyStr.rstrip t.
Proof.
  intros Hr. induction t as [|a t IH]; simpl.
  - apply rstrip_blank, Hr.
  - rewrite IH. reflexivity.
Qed.

Lemma strip_app_blank t r : blank r = true -> PyStr.strip (t ++ r) = PyStr.strip t.
Proof.
  intros Hr. unfold PyStr.strip. induction t as [|a t IH].
  - change ("" ++ r) with r. rewrite (lstrip_blank r Hr). reflexivity.
  - change (String a t ++ r) with (String a (t ++ r)). cbn [PyStr.lstrip].
    destruct (PyStr.isspace a); [exact IH|].
    apply (rstrip_app_blank (String a t) r Hr).
Qed.

Lemma strip_padded l code r :
  blank l = true -> blank r = true -> PyStr.strip (l ++ code ++ r) = PyStr.strip code.
Proof.
  intros Hl Hr. rewrite <- (strip_app_blank code r Hr).
  unfold PyStr.strip. rewrite (lstrip_blank_app l _ Hl). reflexivity.
Qed.

End Padding.

(** X3: white space around the input is ignored: padding a code with any
    white space on either side does not change what it is normalised to. *)
Theorem normalize_ignores_padding (l code r : string) :
  blank l = true -> blank r = true ->
  normalize_sr_lang (l ++ code ++ r) = normalize_sr_lang code
  /\ normalize_tr_lang (l ++ code ++ r) = normalize_tr_lang code.
Proof.
  intros Hl Hr.
  destruct (normalize_by_lower (l ++ code ++ r)) as [-> ->].
  destruct (normalize_by_lower code) as [-> ->].
  rewrite (strip_padded l code r Hl Hr). split; reflexivity.
Qed.

Lemma normalize_ignores_padding_witness :
  normalize_sr_lang ("  " ++ "Gu" ++ " ") = normalize_sr_lang "Gu"
  /\ normalize_tr_lang ("  " ++ "Gu" ++ " ") = normalize_tr_lang "Gu".
Proof. apply (normalize_ignores_padding "  " "Gu" " "); reflexivity. Defined.

(** ** The loop of the worker *)

Section Loop.

Lemma iteration_cases o sr_locale tr_source tr_target :
  (silent_pass o sr_locale
   /\ iteration o sr_locale tr_source tr_target = mkIteration None None)
  \/ (~ silent_pass o sr_locale
      /\ exists t ms, iteration o sr_locale tr_source tr_target
                        = mkIteration (Some t) (Some ms)
                      /\ ms ∈ [300; 1000; 500; 50]%N).
Proof.
  unfold iteration, silent_pass.
  destruct (listen o) eqn:Hl.
  - destruct (recognize_google o sr_locale) as [t| | |] eqn:Hr.
    + destruct t as [|a t]; simpl.
      * left. auto.
      * right. split.
        { intros [H | (_ & [H | H])]; discriminate H. }
        eexists _, _. split; [reflexivity|]. rewrite !elem_of_cons. tauto.
    + left. auto.
    + right. split.
      { intros [H | (_ & [H | H])]; discriminate H. }
      eexists _, _. split; [reflexivity|]. rewrite !elem_of_cons. tauto.
    + right. split.
      { intros [H | (_ & [H | H])]; discriminate H. }
      eexists _, _. split; [reflexivity|]. rewrite !elem_of_cons. tauto.
  - left. auto.
  - right. split.
    { intros [H | (H & _)]; discriminate H. }
    eexists _, _. split; [reflexivity|]. rewrite !elem_of_cons. tauto.
Qed.

End Loop.

(** X4: no outcome of capture, recognition or translation ends the loop
    or touches the session: a pass through the loop body returns to the
    loop head with [running], both handles and the languages as they were.
    The pass is silent (record unchanged, no pause) exactly on a capture
    timeout, an unintelligible phrase or an empty transcript; otherwise it
    publishes one text and takes one pause of 300, 1000, 500 or 50 ms. *)
Theorem iteration_stays_in_loop (o : World) (w : nat) (s : Sys) (wk : Worker) :
  pool s !! w = Some wk ->
  w_pc wk = Iterating ->
  let sr_locale := normalize_sr_lang (w_source wk) in
  let s' := (step (WorkerStep w o) s).1 in
  (exists wk', pool s' = <[w := wk']> (pool s) /\ w_pc wk' = LoopHead
               /\ (silent_pass o sr_locale ->
                   shared s' = shared s /\ w_slept wk' = w_slept wk)
               /\ (~ silent_pass o sr_locale ->
                   exists t ms, shared s' = set_text t (shared s)
                                /\ w_slept wk' = (w_slept wk ++ [ms])%list
                                /\ ms ∈ [300; 1000; 500; 50]%N))
  /\ running (shared s') = running (shared s)
  /\ thread (shared s') = thread (shared s)
  /\ stop_event (shared s') = stop_event (shared s)
  /\ source_lang (shared s') = source_lang (shared s)
  /\ target_lang (shared s') = target_lang (shared s)
  /\ events s' = events s.
Proof.
  intros Hw Hpc. cbv zeta.
  rewrite step_worker, (run_worker_at _ _ _ _ Hw). simpl.
  unfold worker_step. rewrite Hpc.
  destruct (iteration_cases o (normalize_sr_lang (w_source wk))
              (normalize_tr_lang (w_source wk)) (normalize_tr_lang (w_target wk)))
    as [(Hsilent & ->) | (Hloud & t & ms & -> & Hms)]; simpl.
  - split; [|repeat split].
    eexists. split; [reflexivity|]. split; [reflexivity|].
    split; [|intros Hn; contradiction].
    intros _. rewrite sleep_none. split; reflexivity.
  - split; [|repeat split].
    eexists. split; [reflexivity|]. split; [reflexivity|].
    split; [intros Hs; contradiction|].
    intros _. exists t, ms. repeat split. exact Hms.
Qed.

Lemma iteration_stays_in_loop_witness :
  let o := hears (Transcript "") auto_only in
  let s' := (step (WorkerStep 0 o) sample_iterating).1 in
  (exists wk', pool s' = <[0 := wk']> (pool sample_iterating) /\ w_pc wk' = LoopHead
               /\ (silent_pass o (normalize_sr_lang "en") ->
                   shared s' = shared sample_iterating /\ w_slept wk' = [])
               /\ (~ silent_pass o (normalize_sr_lang "en") ->
                   exists t ms, shared s' = set_text t (shared sample_iterating)
                                /\ w_slept wk' = ([] ++ [ms])%list
                                /\ ms ∈ [300; 1000; 500; 50]%N))
  /\ running (shared s') = running (shared sample_iterating)
  /\ thread (shared s') = thread (shared sample_iterating)
  /\ stop_event (shared s') = stop_event (shared sample_iterating)
  /\ source_lang (shared s') = source_lang (shared sample_iterating)
  /\ target_lang (shared s') = target_lang (shared sample_iterating)
  /\ events s' = events sample_iterating.
Proof.
  apply (iteration_stays_in_loop (hears (Transcript "") auto_only) 0
           sample_iterating (mkWorker "en" "en" 0 Iterating [])).
  - vm_compute. reflexivity.
  - reflexivity.
Defined.

(** ** Cancellation *)

Section Cancellation.

Lemma is_set_true evs e : is_set evs e = true <-> evs !! e = Some true.
Proof.
  unfold is_set. destruct (evs !! e) as [[]|]; simpl; split; congruence.
Qed.

Lemma worker_step_progress o evs st wk :
  is_set evs (w_event wk) = true ->
  w_event (worker_step o evs st wk).2 = w_event wk
  /\ remaining (w_pc (worker_step o evs st wk).2) <= pred (remaining (w_pc wk)).
Proof.
  intros Hset. unfold worker_step.
  destruct wk as [src tgt ev pc slept]; simpl in *.
  destruct pc; simpl.
  - destruct (microphone o); simpl; split; auto; lia.
  - destruct (adjust_for_ambient_noise o); simpl; split; auto; lia.
  - rewrite Hset. simpl. split; auto.
  - split; auto.
  - split; auto.
  - split; auto.
Qed.

Lemma run_worker_progress w o s wk :
  pool s !! w = Some wk ->
  is_set (events s) (w_event wk) = true ->
  exists wk', pool (run_worker w o s) !! w = Some wk'
              /\ w_event wk' = w_event wk
              /\ remaining (w_pc wk') <= pred (remaining (w_pc wk)).
Proof.
  intros Hw Hset. rewrite (run_worker_at _ _ _ _ Hw). simpl.
  eexists. split; [apply list_lookup_insert_eq; eapply lookup_lt_Some, Hw|].
  apply worker_step_progress, Hset.
Qed.

Lemma run_worker_other w w' o s :
  w <> w' -> pool (run_worker w' o s) !! w = pool s !! w.
Proof.
  intros Hne. destruct (pool s !! w') as [wk'|] eqn:Hw'.
  - rewrite (run_worker_at _ _ _ _ Hw'). simpl.
    apply list_lookup_insert_ne. congruence.
  - rewrite (run_worker_absent _ _ _ Hw'). reflexivity.
Qed.

Lemma steps_of_cons w w' o sched :
  steps_of w ((w', o) :: sched)
  = (if decide (w' = w) then S (steps_of w sched) else steps_of w sched).
Proof.
  unfold steps_of. rewrite filter_cons. simpl.
  destruct (decide (w' = w)); reflexivity.
Qed.

(** A worker whose event is set returns within [remaining] of its steps. *)
Lemma cancelled_returns_within sched : forall s w wk n,
  pool s !! w = Some wk ->
  is_set (events s) (w_event wk) = true ->
  remaining (w_pc wk) <= n ->
  n <= steps_of w sched ->
  worker_alive (exec (worker_steps sched) s) w = false.
Proof.
  induction sched as [|[w' o] sched IH]; intros s w wk n Hw Hset Hrem Hn.
  - unfold steps_of in Hn. simpl in Hn.
    simpl. rewrite (worker_alive_lookup _ _ _ Hw). unfold is_alive.
    apply bool_decide_eq_false. intros Hpc. apply Hpc.
    destruct (w_pc wk); simpl in Hrem; try lia. reflexivity.
  - rewrite worker_steps_cons, exec_cons, step_worker. simpl.
    rewrite steps_of_cons in Hn.
    destruct (run_worker_frame w' o s) as (_ & Hev & _).
    destruct (decide (w' = w)) as [->|Hne].
    + destruct (run_worker_progress w o s wk Hw Hset) as (wk' & Hw' & Hev' & Hrem').
      apply (IH _ w wk' (pred n)); auto; try lia.
      rewrite Hev, Hev'. exact Hset.
    + apply (IH _ w wk n); auto.
      * rewrite run_worker_other by congruence. exact Hw.
      * rewrite Hev. exact Hset.
Qed.

Lemma remaining_le_4 pc : remaining pc <= 4.
Proof. destruct pc; simpl; lia. Qed.

Lemma step_keeps_set l s e :
  is_set (events s) e = true -> is_set (events (step l s).1) e = true.
Proof.
  rewrite !is_set_true. intros He. unfold step.
  destruct l, (ctl s); simpl; try exact He.
  - unfold start_locked. destruct (running (shared s)); simpl; [exact He|].
    apply lookup_app_l_Some, He.
  - unfold stop_locked. destruct (running (shared s)); exact He.
  - destruct ev as [e0|]; [|exact He].
    destruct (decide (e0 = e)) as [->|Hne].
    + apply list_lookup_insert_eq. eapply lookup_lt_Some, He.
    + rewrite list_lookup_insert_ne by exact Hne. exact He.
  - destruct (run_worker_frame w o s) as (_ & -> & _). exact He.
  - destruct (run_worker_frame w o s) as (_ & -> & _). exact He.
  - destruct (run_worker_frame w o s) as (_ & -> & _). exact He.
  - destruct (run_worker_frame w o s) as (_ & -> & _). exact He.
Qed.

End Cancellation.

(** X5: cancellation is cooperative and bounded: a worker whose stop event
    is set has returned after at most four of its own steps, wherever it
    was, whatever the outside world answers and however the other workers
    are scheduled in between. *)
Theorem cancelled_worker_returns (s : Sys) (w : nat) (wk : Worker)
    (sched : list (nat * World)) :
  pool s !! w = Some wk ->
  is_set (events s) (w_event wk) = true ->
  4 <= steps_of w sched ->
  worker_alive (exec (worker_steps sched) s) w = false.
Proof.
  intros Hw Hset Hn.
  exact (cancelled_returns_within sched s w wk 4 Hw Hset (remaining_le_4 _) Hn).
Qed.

Lemma cancelled_worker_returns_witness :
  worker_alive
    (exec (worker_steps [(0, quiet); (1, quiet); (0, hears (Transcript "hello") auto_only);
                         (0, quiet); (1, quiet); (0, quiet)]) two_workers) 0
  = false.
Proof.
  apply (cancelled_worker_returns two_workers 0 (mkWorker "en" "en" 0 Iterating [])).
  - vm_compute. reflexivity.
  - vm_compute. reflexivity.
  - vm_compute. lia.
Defined.

(** X6: a stop event, once set, is never unset: whatever calls and worker
    steps follow, it stays set. *)
Theorem event_stays_set (ls : list Label) (s : Sys) (e : nat) :
  is_set (events s) e = true -> is_set (events (exec ls s)) e = true.
Proof.
  revert s. induction ls as [|l ls IH]; intros s He; [exact He|].
  rewrite exec_cons. apply IH, step_keeps_set, He.
Qed.

Lemma event_stays_set_witness :
  is_set (events (exec (start None [] ++ stop [] [] ++ [CallStatus]) two_workers)) 0 = true.
Proof.
  apply (event_stays_set (start None [] ++ stop [] [] ++ [CallStatus]) two_workers 0).
  vm_compute. reflexivity.
Defined.

(** ** What a transition does to the pool *)

Section Shapes.

Lemma worker_step_args o evs st wk :
  w_source (worker_step o evs st wk).2 = w_source wk
  /\ w_target (worker_step o evs st wk).2 = w_target wk
  /\ w_event (worker_step o evs st wk).2 = w_event wk.
Proof.
  unfold worker_step. destruct wk as [src tgt ev pc slept]; simpl.
  destruct pc; simpl; auto.
  - destruct (microphone o); auto.
  - destruct (adjust_for_ambient_noise o); auto.
  - destruct (is_set evs ev); auto.
Qed.

Lemma worker_step_exiting o evs st wk :
  w_pc (worker_step o evs st wk).2 = Exiting ->
  w_pc wk = Exiting \/ is_set evs (w_event wk) = true.
Proof.
  unfold worker_step. destruct wk as [src tgt ev pc slept]; simpl.
  destruct pc; simpl; auto; try discriminate.
  - destruct (microphone o); discriminate.
  - destruct (adjust_for_ambient_noise o); discriminate.
  - destruct (is_set evs ev); [auto | discriminate].
Qed.

(** A transition leaves the pool alone, or moves one worker, or spawns one
    worker with a new event; only a spawn writes the languages. *)
Lemma step_shape l s :
  (pool (step l s).1 = pool s
   /\ length (events (step l s).1) = length (events s)
   /\ languages (step l s).1 = languages s)
  \/ (exists w o wk,
        pool s !! w = Some wk
        /\ pool (step l s).1 = <[w := (worker_step o (events s) (shared s) wk).2]> (pool s)
        /\ events (step l s).1 = events s
        /\ languages (step l s).1 = languages s)
  \/ (exists src tgt,
        pool (step l s).1
          = (pool s ++ [mkWorker src tgt (length (events s)) Initializing []])%list
        /\ events (step l s).1 = (events s ++ [false])%list
        /\ languages (step l s).1 = (Some src, Some tgt)).
Proof.
  destruct l as [body| | | | | |w o].
  - unfold step. destruct (ctl s); try solve [left; auto].
    unfold start_locked. destruct (running (shared s)); [left; auto|].
    right. right. eexists _, _. simpl. auto.
  - left. unfold step. destruct (ctl s); auto.
  - left. unfold step, stop_locked.
    destruct (ctl s); auto. destruct (running (shared s)); auto.
  - left. unfold step. destruct (ctl s); auto.
    simpl. destruct ev; [rewrite length_insert|]; auto.
  - left. unfold step. destruct (ctl s); auto.
  - left. unfold step. destruct (ctl s); auto.
  - rewrite step_worker. simpl.
    destruct (pool s !! w) as [wk|] eqn:Hw.
    + right. left. exists w, o, wk.
      rewrite (run_worker_at _ _ _ _ Hw). unfold languages. simpl.
      destruct (worker_step_spec o (events s) (shared s) wk) as (-> & -> & _).
      auto.
    + left. rewrite (run_worker_absent _ _ _ Hw). auto.
Qed.

Lemma numbered_step l s : Numbered s -> Numbered (step l s).1.
Proof.
  intros [Hlen Hnum].
  destruct (step_shape l s)
    as [(Hp & He & _) | [(w & o & wk & Hw & Hp & He & _) | (src & tgt & Hp & He & _)]];
    unfold Numbered; rewrite Hp.
  - split; [congruence | exact Hnum].
  - rewrite He, length_insert. split; [exact Hlen|].
    intros w0 wk0. rewrite (lookup_updated _ _ _ _ _ Hw).
    destruct (decide (w = w0)) as [<-|_]; [|apply Hnum].
    intros [= <-]. destruct (worker_step_args o (events s) (shared s) wk) as (_ & _ & ->).
    apply Hnum, Hw.
  - rewrite He, !length_app. simpl. split; [lia|].
    intros w0 wk0 [Hw0 | [Hle Hw0]]%lookup_app_Some; [apply Hnum, Hw0|].
    apply list_lookup_singleton_Some in Hw0 as [Hw0 <-]. simpl. lia.
Qed.

Lemma reachable_numbered s : reachable s -> Numbered s.
Proof.
  induction 1 as [|l s _ IH _].
  - split; [reflexivity|]. intros w wk Hw. discriminate Hw.
  - apply numbered_step, IH.
Qed.

Lemma left_on_cancel_step l s : LeftOnCancel s -> LeftOnCancel (step l s).1.
Proof.
  intros Hinv w0 wk0 Hw0 Hpc.
  destruct (step_shape l s)
    as [(Hp & _) | [(w & o & wk & Hw & Hp & He & _) | (src & tgt & Hp & He & _)]];
    rewrite Hp in Hw0.
  - apply step_keeps_set. exact (Hinv _ _ Hw0 Hpc).
  - rewrite (lookup_updated _ _ _ _ _ Hw) in Hw0.
    destruct (decide (w = w0)) as [<-|_];
      [|apply step_keeps_set; exact (Hinv _ _ Hw0 Hpc)].
    injection Hw0 as <-.
    destruct (worker_step_args o (events s) (shared s) wk) as (_ & _ & Hev).
    rewrite Hev. apply step_keeps_set.
    destruct (worker_step_exiting _ _ _ _ Hpc) as [Hpc'|Hset]; [|exact Hset].
    exact (Hinv _ _ Hw Hpc').
  - apply lookup_app_Some in Hw0 as [Hw0 | [_ Hw0]].
    + apply step_keeps_set. exact (Hinv _ _ Hw0 Hpc).
    + apply list_lookup_singleton_Some in Hw0 as [_ <-]. discriminate Hpc.
Qed.

End Shapes.

(** X7: every worker gets a stop event of its own: at every reachable
    point there are as many events as workers, worker [w] polls event [w],
    and so no two workers ever share an event. *)
Theorem fresh_event_per_worker (s : Sys) :
  reachable s ->
  length (events s) = length (pool s)
  /\ (forall w wk, pool s !! w = Some wk -> w_event wk = w)
  /\ (forall w1 w2 wk1 wk2,
        pool s !! w1 = Some wk1 -> pool s !! w2 = Some wk2 ->
        w_event wk1 = w_event wk2 -> w1 = w2).
Proof.
  intros Hs. destruct (reachable_numbered s Hs) as [Hlen Hnum].
  refine (conj Hlen (conj Hnum _)).
  intros w1 w2 wk1 wk2 H1 H2 He.
  rewrite (Hnum _ _ H1), (Hnum _ _ H2) in He. exact He.
Qed.

Lemma fresh_event_per_worker_witness :
  length (events two_workers) = length (pool two_workers)
  /\ (forall w wk, pool two_workers !! w = Some wk -> w_event wk = w)
  /\ (forall w1 w2 wk1 wk2,
        pool two_workers !! w1 = Some wk1 -> pool two_workers !! w2 = Some wk2 ->
        w_event wk1 = w_event wk2 -> w1 = w2).
Proof.
  apply (fresh_event_per_worker two_workers).
  apply reachable_exec, reach_init.
Defined.

(** X8: a worker leaves its loop only on cancellation: at every reachable
    point, a worker that is past the loop and about to run its clean exit
    polls an event that is set. *)
Theorem exit_only_when_cancelled (s : Sys) (w : nat) (wk : Worker) :
  reachable s ->
  pool s !! w = Some wk ->
  w_pc wk = Exiting ->
  is_set (events s) (w_event wk) = true.
Proof.
  intros Hs. revert w wk. change (LeftOnCancel s).
  induction Hs as [|l s _ IH _].
  - intros w wk Hw. discriminate Hw.
  - apply left_on_cancel_step, IH.
Qed.

Lemma exit_only_when_cancelled_witness :
  is_set (events sample_exiting) (w_event (mkWorker "en" "en" 0 Exiting [])) = true.
Proof.
  apply (exit_only_when_cancelled sample_exiting 0 (mkWorker "en" "en" 0 Exiting [])).
  - apply reachable_exec, reach_init.
  - vm_compute. reflexivity.
  - reflexivity.
Defined.

(** X9: a [stop] that finds a session cancels the recorded worker and no
    other: the call sets the event of that worker and leaves every other
    event as it was, and the worker has returned after at most four of its
    own steps once the call is over, whatever the schedule. *)
Theorem stop_cancels_recorded_worker (s : Sys) (w : nat)
    (before_set during_join after : list (nat * World)) :
  reachable s ->
  ctl s = Idle ->
  running (shared s) = true ->
  thread (shared s) = Some w ->
  events (exec (stop before_set during_join) s) = <[w := true]> (events s)
  /\ (4 <= steps_of w after ->
      worker_alive (exec (stop before_set during_join ++ worker_steps after) s) w
      = false).
Proof.
  intros Hs Hc Hr Ht.
  destruct (reachable_consistent _ _ Hs) as [Hcons _].
  destruct (Hcons Hr) as (w0 & wk & Ht0 & Hw & _ & He & Hlt).
  assert (w0 = w) as -> by congruence.
  destruct (reachable_numbered _ Hs) as [Hlen Hnum].
  rewrite (Hnum _ _ Hw) in He, Hlt.
  assert (Hev : events (exec (stop before_set during_join) s) = <[w := true]> (events s)).
  { destruct (stop_running s before_set during_join Hc Hr) as [Hex _].
    cbv zeta in Hex. rewrite Hex. simpl.
    match goal with
    | |- events (exec (worker_steps during_join) ?s1) = _ =>
        destruct (worker_steps_frame during_join s1) as (_ & -> & _)
    end.
    simpl. rewrite He.
    match goal with
    | |- <[w := true]> (events (exec (worker_steps before_set) ?s0)) = _ =>
        destruct (worker_steps_frame before_set s0) as (_ & -> & _)
    end.
    reflexivity. }
  split; [exact Hev|]. intros Hn. rewrite exec_app.
  set (s' := exec (stop before_set during_join) s) in *.
  assert (Hs' : reachable s') by apply reachable_exec, Hs.
  destruct (reachable_numbered _ Hs') as [Hlen' Hnum'].
  assert (Hw' : is_Some (pool s' !! w)).
  { apply lookup_lt_is_Some. rewrite <- Hlen', Hev, length_insert. exact Hlt. }
  destruct Hw' as [wk' Hw'].
  apply (cancelled_returns_within after s' w wk' 4 Hw');
    [|apply remaining_le_4 | exact Hn].
  rewrite (Hnum' _ _ Hw'), Hev. apply is_set_true.
  apply list_lookup_insert_eq. exact Hlt.
Qed.

Lemma stop_cancels_recorded_worker_witness :
  let s := exec busy_session initial_sys in
  let after := [(0, hears (Transcript "hello") auto_only); (0, quiet); (0, quiet);
                (0, quiet)] in
  events (exec (stop [] []) s) = <[0 := true]> (events s)
  /\ (4 <= steps_of 0 after ->
      worker_alive (exec (stop [] [] ++ worker_steps after) s) 0 = false).
Proof.
  apply (stop_cancels_recorded_worker (exec busy_session initial_sys) 0 [] []).
  - apply reachable_exec, reach_init.
  - vm_compute. reflexivity.
  - vm_compute. reflexivity.
  - vm_compute. reflexivity.
Defined.

(** ** Replies *)

Section Replies.

(** The reply of a [start] that spawns a worker. *)
Lemma start_spawning_reply s body sched :
  ctl s = Idle -> running (shared s) = false ->
  replies (start body sched) s
  = [Json [("message", JStr "Listening and translating...");
           ("translatedText",
            JStr (translated_text (shared (exec (start body sched) s))))] 200].
Proof.
  intros Hc Hr. rewrite (start_spawning s body sched Hc Hr). unfold start.
  destruct (step_enabled s) as (Hstart & _).
  destruct (start_locked_spawns body s Hr) as (Hc0 & _ & _ & _ & Hnone).
  rewrite replies_cons, (Hstart body Hc), Hnone, replies_app, replies_cons.
  destruct (worker_steps_frame sched (start_locked body s).1)
    as (Hc1 & _ & _ & _ & _ & _ & ->).
  rewrite Hc0 in Hc1.
  destruct (step_enabled (exec (worker_steps sched) (start_locked body s).1))
    as (_ & Hret & _).
  rewrite (Hret Hc1). reflexivity.
Qed.

End Replies.

(** X10: the reply of a [start] that spawns a worker is built after the
    lock is released, so its [translatedText] is the text the record holds
    when the call returns, whatever the workers did during the call:
    ["Starting speech recognition..."] when no worker step falls within the
    call, and the microphone error when the one step within the call is
    the new worker failing to open the microphone. *)
Theorem start_reply_text (s : Sys) (body : option (gmap string string))
    (sched : list (nat * World)) :
  ctl s = Idle ->
  running (shared s) = false ->
  replies (start body sched) s
  = [Json [("message", JStr "Listening and translating...");
           ("translatedText",
            JStr (translated_text (shared (exec (start body sched) s))))] 200]
  /\ translated_text (shared (exec (start body []) s)) = "Starting speech recognition..."
  /\ (forall o e, microphone o = Raises e ->
        translated_text (shared (exec (start body [(length (pool s), o)]) s))
        = "Microphone error: " ++ e).
Proof.
  intros Hc Hr. split; [exact (start_spawning_reply s body sched Hc Hr)|].
  split.
  - rewrite (start_spawning _ _ _ Hc Hr). unfold start_locked. rewrite Hr.
    reflexivity.
  - intros o e Hmic. rewrite (start_spawning _ _ _ Hc Hr).
    rewrite worker_steps_cons, exec_cons, step_worker.
    unfold start_locked. rewrite Hr. simpl. unfold run_worker. simpl.
    rewrite list_lookup_middle by reflexivity.
    unfold worker_step. simpl. rewrite Hmic. reflexivity.
Qed.

Lemma start_reply_text_witness :
  replies (start None [(0, no_microphone)]) initial_sys
  = [Json [("message", JStr "Listening and translating...");
           ("translatedText",
            JStr (translated_text
                    (shared (exec (start None [(0, no_microphone)]) initial_sys))))] 200]
  /\ translated_text (shared (exec (start None []) initial_sys))
     = "Starting speech recognition..."
  /\ (forall o e, microphone o = Raises e ->
        translated_text
          (shared (exec (start None [(length (pool initial_sys), o)]) initial_sys))
        = "Microphone error: " ++ e).
Proof.
  apply (start_reply_text initial_sys None [(0, no_microphone)]); reflexivity.
Defined.

(** ** Languages and banner *)

(** X12: at every reachable point the two languages in the record are the
    two arguments of the worker spawned last, as [start] read them from
    the request body (whose values are strings) and not normalised; as
    long as no worker was ever spawned they are [None]. *)
Theorem languages_of_last_worker (s : Sys) :
  reachable s ->
  (source_lang (shared s), target_lang (shared s))
  = match last (pool s) with
    | Some wk => (Some (w_source wk), Some (w_target wk))
    | None => (None, None)
    end.
Proof.
  induction 1 as [|l s _ IH _]; [reflexivity|].
  change (languages (step l s).1
          = match last (pool (step l s).1) with
            | Some wk => (Some (w_source wk), Some (w_target wk))
            | None => (None, None)
            end).
  change (languages s
          = match last (pool s) with
            | Some wk => (Some (w_source wk), Some (w_target wk))
            | None => (None, None)
            end) in IH.
  destruct (step_shape l s)
    as [(Hp & _ & Hl) | [(w & o & wk & Hw & Hp & _ & Hl) | (src & tgt & Hp & _ & Hl)]];
    rewrite Hp, Hl.
  - exact IH.
  - rewrite IH, !last_lookup, length_insert, (lookup_updated _ _ _ _ _ Hw).
    destruct (decide (w = pred (length (pool s)))) as [->|_]; [|reflexivity].
    rewrite Hw.
    destruct (worker_step_args o (events s) (shared s) wk) as (-> & -> & _).
    reflexivity.
  - rewrite last_snoc. reflexivity.
Qed.

Lemma languages_of_last_worker_witness :
  (source_lang (shared two_workers), target_lang (shared two_workers))
  = match last (pool two_workers) with
    | Some wk => (Some (w_source wk), Some (w_target wk))
    | None => (None, None)
    end.
Proof. apply (languages_of_last_worker two_workers). apply reachable_exec, reach_init. Defined.

Section Banner.

Lemma other_steps_keep_worker sched : forall s w,
  steps_of w sched = 0 ->
  pool (exec (worker_steps sched) s) !! w = pool s !! w.
Proof.
  induction sched as [|[w' o] sched IH]; intros s w Hn; [reflexivity|].
  rewrite steps_of_cons in Hn. destruct (decide (w' = w)) as [_|Hne]; [discriminate|].
  rewrite worker_steps_cons, exec_cons, step_worker. simpl.
  rewrite (IH _ _ Hn). apply run_worker_other. congruence.
Qed.

Lemma run_worker_opens w o s wk :
  pool s !! w = Some wk -> w_pc wk = Initializing -> microphone o = Returns tt ->
  run_worker w o s
  = {| shared := shared s; pool := <[w := at_pc Calibrating wk]> (pool s);
       events := events s; ctl := ctl s |}.
Proof.
  intros Hw Hpc Hmic. rewrite (run_worker_at _ _ _ _ Hw).
  unfold worker_step. rewrite Hpc, Hmic. reflexivity.
Qed.

Lemma run_worker_calibrates w o s wk :
  pool s !! w = Some wk -> w_pc wk = Calibrating ->
  adjust_for_ambient_noise o = Returns tt ->
  run_worker w o s
  = {| shared := set_text (listening_text (normalize_sr_lang (w_source wk))
                             (normalize_tr_lang (w_source wk))
                             (normalize_tr_lang (w_target wk))) (shared s);
       pool := <[w := at_pc LoopHead wk]> (pool s);
       events := events s; ctl := ctl s |}.
Proof.
  intros Hw Hpc Hcal. rewrite (run_worker_at _ _ _ _ Hw).
  unfold worker_step. rewrite Hpc, Hcal. reflexivity.
Qed.

End Banner.

(** X13: at the moment the worker spawned by [start] has opened and
    calibrated the microphone, whatever the other workers did in between,
    the record holds the listening banner with the normalised locale and
    translation codes, while [sourceLang] and [targetLang] still carry the
    codes as they were passed to [start]; [status] reports this with the
    [running] flag of the record, which is true when no other worker was
    alive at the [start]. *)
Theorem listening_banner (s : Sys) (src tgt : string) (o1 o2 : World)
    (sched0 sched1 : list (nat * World)) :
  ctl s = Idle ->
  running (shared s) = false ->
  microphone o1 = Returns tt ->
  adjust_for_ambient_noise o2 = Returns tt ->
  steps_of (length (pool s)) sched0 = 0 ->
  steps_of (length (pool s)) sched1 = 0 ->
  let w := length (pool s) in
  let s' := exec (start (request_body src tgt) []
                    ++ worker_steps (sched0 ++ [(w, o1)] ++ sched1 ++ [(w, o2)])) s in
  status s'
  = Json [("running", JBool (running (shared s')));
          ("translatedText",
           JStr ("Listening... (SR: " ++ normalize_sr_lang src ++ ", TR: "
                   ++ normalize_tr_lang src ++ " -> " ++ normalize_tr_lang tgt ++ ")"));
          ("sourceLang", JStr src); ("targetLang", JStr tgt)] 200
  /\ (active_workers s = [] -> running (shared s') = true).
Proof.
  intros Hc Hr Hmic Hcal Hn0 Hn1. cbv zeta.
  set (w := length (pool s)) in *.
  set (wk0 := mkWorker src tgt (length (events s)) Initializing []).
  set (run := (start (request_body src tgt) []
                 ++ worker_steps (sched0 ++ [(w, o1)] ++ sched1 ++ [(w, o2)]))%list).
  set (s1 := exec (start (request_body src tgt) []) s).
  assert (Hw1 : pool s1 !! w = Some wk0).
  { unfold s1. rewrite (start_spawning _ _ _ Hc Hr).
    unfold start_locked. rewrite Hr.
    destruct (request_body_get src tgt) as [-> ->]. simpl.
    apply list_lookup_middle. reflexivity. }
  assert (Hl1 : languages s1 = (Some src, Some tgt)).
  { unfold s1. rewrite (start_spawning _ _ _ Hc Hr). unfold languages. simpl.
    destruct (start_locked_spawns (request_body src tgt) s Hr) as (_ & _ & -> & -> & _).
    destruct (request_body_get src tgt) as [-> ->]. reflexivity. }
  set (s2 := exec (worker_steps sched0) s1).
  assert (Hw2 : pool s2 !! w = Some wk0).
  { unfold s2. rewrite other_steps_keep_worker by exact Hn0. exact Hw1. }
  set (s3 := run_worker w o1 s2).
  assert (Hw3 : pool s3 !! w = Some (at_pc Calibrating wk0)).
  { unfold s3. rewrite (run_worker_opens w o1 s2 wk0 Hw2 eq_refl Hmic). simpl.
    apply list_lookup_insert_eq. eapply lookup_lt_Some, Hw2. }
  set (s4 := exec (worker_steps sched1) s3).
  assert (Hw4 : pool s4 !! w = Some (at_pc Calibrating wk0)).
  { unfold s4. rewrite other_steps_keep_worker by exact Hn1. exact Hw3. }
  assert (Hrun : exec run s = run_worker w o2 s4).
  { unfold run. rewrite exec_app. fold s1.
    rewrite !worker_steps_app, !exec_app. fold s2.
    change (worker_steps [(w, o1)]) with [WorkerStep w o1].
    change (worker_steps [(w, o2)]) with [WorkerStep w o2].
    change (exec [WorkerStep w o1] s2) with (step (WorkerStep w o1) s2).1.
    rewrite (step_worker w o1 s2). cbn [fst]. fold s3. fold s4.
    change (exec [WorkerStep w o2] s4) with (step (WorkerStep w o2) s4).1.
    rewrite (step_worker w o2 s4). reflexivity. }
  assert (Hlang : languages (exec run s) = (Some src, Some tgt)).
  { unfold run. rewrite exec_app. fold s1.
    rewrite (exec_languages _ _ (worker_steps_not_start _)). exact Hl1. }
  assert (HS : active_workers s = [] -> Sole (exec run s)).
  { intros Hnil. apply sole_exec; [|apply sole_quiescent; assumption].
    apply Forall_app. split; [apply start_not_return | apply worker_steps_not_return]. }
  set (sf := exec run s) in *. clearbody sf.
  rewrite (run_worker_calibrates w o2 s4 _ Hw4 eq_refl Hcal) in Hrun.
  unfold languages in Hlang. injection Hlang as Hsrc Htgt.
  split.
  - unfold status. rewrite Hsrc, Htgt. rewrite Hrun at 2. reflexivity.
  - intros Hnil. destruct (HS Hnil) as (H1 & _).
    apply (H1 w (at_pc LoopHead (at_pc Calibrating wk0))); [|reflexivity].
    rewrite Hrun. simpl.
    apply list_lookup_insert_eq. eapply lookup_lt_Some, Hw4.
Qed.

Lemma listening_banner_witness :
  let s := exec orphan_session initial_sys in
  let sched0 := [(0, hears (Transcript "hello") auto_only)] in
  let sched1 := [(0, quiet); (0, quiet)] in
  let s' := exec (start (request_body "CN" " hi ") []
                    ++ worker_steps (sched0 ++ [(1, quiet)] ++ sched1 ++ [(1, quiet)])) s in
  status s'
  = Json [("running", JBool (running (shared s')));
          ("translatedText",
           JStr ("Listening... (SR: " ++ normalize_sr_lang "CN" ++ ", TR: "
                   ++ normalize_tr_lang "CN" ++ " -> " ++ normalize_tr_lang " hi " ++ ")"));
          ("sourceLang", JStr "CN"); ("targetLang", JStr " hi ")] 200
  /\ (active_workers s = [] -> running (shared s') = true).
Proof.
  apply (listening_banner (exec orphan_session initial_sys) "CN" " hi " quiet quiet
           [(0, hears (Transcript "hello") auto_only)] [(0, quiet); (0, quiet)]).
  - vm_compute. reflexivity.
  - vm_compute. reflexivity.
  - reflexivity.
  - reflexivity.
  - vm_compute. reflexivity.
  - vm_compute. reflexivity.
Defined.

(** After the orphan of the witness has run its clean exit in between,
    [status] shows the banner of the new worker with [running] false. *)
Example banner_with_orphan :
  status (exec (orphan_session ++ start (request_body "CN" " hi ") []
                  ++ worker_steps [(0, hears (Transcript "hello") auto_only); (1, quiet);
                                   (0, quiet); (0, quiet); (1, quiet)]) initial_sys)
  = Json [("running", JBool false);
          ("translatedText", JStr "Listening... (SR: zh-CN, TR: zh-CN -> hi)");
          ("sourceLang", JStr "CN"); ("targetLang", JStr " hi ")] 200.
Proof. vm_compute. reflexivity. Qed.

(** ** Sessions begin only in [start] *)

Section Frames.

Lemma step_spawns_nothing l s :
  ~ is_call_start l ->
  length (pool (step l s).1) = length (pool s)
  /\ length (events (step l s).1) = length (events s)
  /\ (running (shared s) = false -> running (shared (step l s).1) = false).
Proof.
  intros Hl. destruct l as [body| | | | | |w o]; [exfalso; apply Hl; exact I|..].
  - unfold step. destruct (ctl s); simpl; auto.
  - unfold step, stop_locked. destruct (ctl s); simpl; auto.
    destruct (running (shared s)) eqn:Hr; simpl; repeat split; congruence.
  - unfold step. destruct (ctl s); simpl; auto.
    destruct ev; [rewrite length_insert|]; auto.
  - unfold step. destruct (ctl s); simpl; auto.
  - unfold step. destruct (ctl s); simpl; auto.
  - rewrite step_worker. simpl.
    destruct (run_worker_frame w o s) as (_ & -> & _ & _ & -> & Hrun). auto.
Qed.

Lemma exec_spawns_nothing ls s :
  Forall (fun l => ~ is_call_start l) ls ->
  length (pool (exec ls s)) = length (pool s)
  /\ length (events (exec ls s)) = length (events s)
  /\ (running (shared s) = false -> running (shared (exec ls s)) = false).
Proof.
  intros Hls. revert s. induction Hls as [|l ls Hl _ IH]; intros s; [auto|].
  rewrite exec_cons.
  destruct (IH (step l s).1) as (-> & -> & Hrun).
  destruct (step_spawns_nothing l s Hl) as (-> & -> & Hrun').
  auto.
Qed.

Lemma stop_returns_idle s before_set during_join :
  ctl s = Idle -> ctl (exec (stop before_set during_join) s) = Idle.
Proof.
  intros Hc. destruct (running (shared s)) eqn:Hr.
  - destruct (stop_running s before_set during_join Hc Hr) as [He _].
    cbv zeta in He. rewrite He. reflexivity.
  - destruct (stop_not_running s before_set during_join Hc Hr) as [-> _].
    destruct (worker_steps_frame (before_set ++ during_join) s) as (-> & _).
    exact Hc.
Qed.

End Frames.

(** X14: a session begins only in [start]: along any run without the
    locked block of [start], whatever else is called and whatever the
    workers do, no worker and no event is created and [running], once
    false, stays false. *)
Theorem only_start_spawns (ls : list Label) (s : Sys) :
  Forall (fun l => ~ is_call_start l) ls ->
  length (pool (exec ls s)) = length (pool s)
  /\ length (events (exec ls s)) = length (events s)
  /\ (running (shared s) = false -> running (shared (exec ls s)) = false).
Proof.
  intros Hls. revert s. induction Hls as [|l ls Hl _ IH]; intros s; [auto|].
  rewrite exec_cons.
  destruct (IH (step l s).1) as (-> & -> & Hrun).
  destruct (step_spawns_nothing l s Hl) as (-> & -> & Hrun').
  auto.
Qed.

Lemma only_start_spawns_witness :
  let ls := (stop [] [] ++ worker_steps [(0, quiet); (1, quiet)]
               ++ [CallStatus; StartReturn])%list in
  length (pool (exec ls two_workers)) = length (pool two_workers)
  /\ length (events (exec ls two_workers)) = length (events two_workers)
  /\ (running (shared two_workers) = false ->
      running (shared (exec ls two_workers)) = false).
Proof.
  apply (only_start_spawns
           (stop [] [] ++ worker_steps [(0, quiet); (1, quiet)] ++ [CallStatus; StartReturn])
           two_workers).
  repeat constructor; intros [].
Defined.

(** ** Requests that stay below the root *)

Section PlainRequests.
Import Static.

Lemma frontend_dir_climbs_nowhere (files : list path) (module_file : path) :
  climbs_nowhere (FRONTEND_DIR (plain_fs files) module_file).
Proof.
  unfold FRONTEND_DIR, PROJECT_ROOT, parent. simpl.
  do 2 apply removelast_climbs_nowhere. apply normpath_climbs_nowhere.
Qed.

Lemma last_app_nonempty (l p : path) : p <> [] -> List.last (l ++ p) "" = List.last p "".
Proof.
  intros Hp. induction l as [|a l IH]; [reflexivity|].
  change ((a :: l) ++ p)%list with (a :: (l ++ p)%list). simpl.
  destruct (l ++ p)%list eqn:Hlp; [|exact IH].
  apply app_eq_nil in Hlp as [_ Hp']. contradiction.
Qed.

End PlainRequests.

(** X15: on a file system without symbolic links, a relative request path
    with no [".."] component (and none of the API names) is never answered
    403, and the file is sent exactly when the root followed by the
    components of the path is a regular file whose suffix, the suffix of
    the last requested component, is allow-listed. *)
Theorem plain_request_never_forbidden
    (files : list Static.path) (module_file : Static.path) (filename : string) :
  PyStr.startswith "/" filename = false ->
  climbs_nowhere (Static.parts filename) ->
  filename ∉ Static.API_PATHS ->
  let root := Static.FRONTEND_DIR (Static.plain_fs files) module_file in
  let t := (root ++ Static.parts filename)%list in
  Static.serve_static_file (Static.plain_fs files) module_file filename <> Abort 403
  /\ (Static.serve_static_file (Static.plain_fs files) module_file filename
        = SendFromDirectory root filename
      <-> t ∈ files /\ Static.suffix t ∈ Static.ALLOWED_STATIC_EXTS)
  /\ (Static.parts filename <> [] ->
      Static.suffix t = Static.suffix (Static.parts filename)).
Proof.
  intros Hrel Hclean Hapi. cbv zeta.
  assert (Ht : Static.target (Static.plain_fs files) module_file filename
               = (Static.FRONTEND_DIR (Static.plain_fs files) module_file
                    ++ Static.parts filename)%list).
  { unfold Static.target, Static.joinpath. rewrite Hrel. simpl.
    apply normpath_clean, Forall_app. split; [|exact Hclean].
    apply frontend_dir_climbs_nowhere. }
  assert (Hserve :
    Static.serve_static_file (Static.plain_fs files) module_file filename
    = (if bool_decide
            ((Static.FRONTEND_DIR (Static.plain_fs files) module_file
                ++ Static.parts filename)%list ∈ files)
          && bool_decide
               (Static.suffix
                  (Static.FRONTEND_DIR (Static.plain_fs files) module_file
                     ++ Static.parts filename)%list ∈ Static.ALLOWED_STATIC_EXTS)
       then SendFromDirectory (Static.FRONTEND_DIR (Static.plain_fs files) module_file)
              filename
       else Abort 404)).
  { unfold Static.serve_static_file.
    rewrite bool_decide_eq_false_2 by exact Hapi.
    unfold Static.inside_root. rewrite Ht.
    rewrite bool_decide_eq_true_2 by (apply prefix_app_r; reflexivity).
    reflexivity. }
  refine (conj _ (conj _ _)).
  - rewrite Hserve. destruct (_ && _); discriminate.
  - rewrite Hserve. split.
    + intros H. destruct (bool_decide (_ ∈ files)) eqn:Hf; simpl in H; [|discriminate H].
      destruct (bool_decide (_ ∈ Static.ALLOWED_STATIC_EXTS)) eqn:He; [|discriminate H].
      apply bool_decide_eq_true in Hf. apply bool_decide_eq_true in He. auto.
    + intros [Hf He].
      rewrite (bool_decide_eq_true_2 _ Hf), (bool_decide_eq_true_2 _ He). reflexivity.
  - intros Hne. unfold Static.suffix. rewrite last_app_nonempty by exact Hne.
    reflexivity.
Qed.

Lemma plain_request_never_forbidden_witness :
  let files := [["srv"; "site"; "app.js"]; ["srv"; "site"; "index.html"];
                ["srv"; "site"; "server"; "app.py"]] in
  let root := Static.FRONTEND_DIR (Static.plain_fs files) sample_module_file in
  let t := (root ++ Static.parts "./app.js")%list in
  Static.serve_static_file (Static.plain_fs files) sample_module_file "./app.js"
    <> Abort 403
  /\ (Static.serve_static_file (Static.plain_fs files) sample_module_file "./app.js"
        = SendFromDirectory root "./app.js"
      <-> t ∈ files /\ Static.suffix t ∈ Static.ALLOWED_STATIC_EXTS)
  /\ (Static.parts "./app.js" <> [] ->
      Static.suffix t = Static.suffix (Static.parts "./app.js")).
Proof.
  apply (plain_request_never_forbidden
           [["srv"; "site"; "app.js"]; ["srv"; "site"; "index.html"];
            ["srv"; "site"; "server"; "app.py"]] sample_module_file "./app.js").
  - reflexivity.
  - vm_compute. repeat constructor; discriminate.
  - vm_compute. intros H. discriminate H.
Defined.

(** X16: the index document is served by [/] only: on a file system
    without symbolic links, [serve_index] sends [index.html] from the
    serving root whenever it exists, while a request for the same file
    through the static route is answered 404, its suffix not being
    allow-listed; when it does not exist both routes answer 404. *)
Theorem index_only_at_root
    (files : list Static.path) (path_exists : Static.path -> bool)
    (module_file : Static.path) :
  let fs := Static.plain_fs files in
  INDEX_FILE fs module_file = (Static.FRONTEND_DIR fs module_file ++ ["index.html"])%list
  /\ Static.target fs module_file "index.html" = INDEX_FILE fs module_file
  /\ Static.serve_static_file fs module_file "index.html" = Abort 404
  /\ serve_index fs path_exists module_file
     = (if path_exists (INDEX_FILE fs module_file)
        then SendFile (Static.FRONTEND_DIR fs module_file ++ ["index.html"])%list
        else Text "index.html not found next to project root" 404).
Proof.
  cbv zeta.
  assert (Hidx : INDEX_FILE (Static.plain_fs files) module_file
                 = (Static.FRONTEND_DIR (Static.plain_fs files) module_file
                      ++ ["index.html"])%list) by reflexivity.
  assert (Hclean : climbs_nowhere (Static.parts "index.html")).
  { vm_compute. repeat constructor; discriminate. }
  assert (Hapi : "index.html" ∉ Static.API_PATHS).
  { intros Hin. destruct (api_path_cases _ Hin) as [H | [H | H]]; discriminate H. }
  assert (Ht : Static.target (Static.plain_fs files) module_file "index.html"
               = (Static.FRONTEND_DIR (Static.plain_fs files) module_file
                    ++ ["index.html"])%list).
  { unfold Static.target. change (Static.joinpath ?r "index.html") with (r ++ ["index.html"])%list.
    simpl. apply normpath_clean, Forall_app. split; [|exact Hclean].
    apply frontend_dir_climbs_nowhere. }
  refine (conj Hidx (conj _ (conj _ _))).
  - rewrite Hidx. exact Ht.
  - unfold Static.serve_static_file.
    rewrite bool_decide_eq_false_2 by exact Hapi.
    unfold Static.inside_root. rewrite Ht.
    rewrite bool_decide_eq_true_2 by (apply prefix_app_r; reflexivity). simpl.
    assert (Hsuf : Static.suffix
                     (Static.FRONTEND_DIR (Static.plain_fs files) module_file
                        ++ ["index.html"])%list = ".html").
    { unfold Static.suffix. rewrite last_app_nonempty by discriminate. reflexivity. }
    assert (Hext : ".html" ∉ Static.ALLOWED_STATIC_EXTS).
    { unfold Static.ALLOWED_STATIC_EXTS.
      rewrite elem_of_list_to_set, !elem_of_cons, elem_of_nil.
      intuition discriminate. }
    rewrite Hsuf, (bool_decide_eq_false_2 _ Hext), andb_false_r. reflexivity.
  - unfold serve_index. rewrite Hidx. reflexivity.
Qed.

(** ** Composing the calls *)

(** X17: the languages of a session default to ["en"]: a [start] that
    spawns a worker records, for each of [sourceLang] and [targetLang],
    the value of the key in the JSON body, and ["en"] when the key, or the
    whole body, is missing; the workers never change them. *)
Theorem start_language_defaults (s : Sys) (body : option (gmap string string))
    (sched : list (nat * World)) :
  ctl s = Idle ->
  running (shared s) = false ->
  let data : gmap string string := default ∅ body in
  let s' := exec (start body sched) s in
  source_lang (shared s') = Some (default "en" (data !! "sourceLang"))
  /\ target_lang (shared s') = Some (default "en" (data !! "targetLang"))
  /\ (body = None ->
      source_lang (shared s') = Some "en" /\ target_lang (shared s') = Some "en").
Proof.
  intros Hc Hr. cbv zeta. rewrite (start_spawning _ _ _ Hc Hr). simpl.
  destruct (worker_steps_frame sched (start_locked body s).1) as (_ & _ & -> & -> & _).
  destruct (start_locked_spawns body s Hr) as (_ & _ & -> & -> & _).
  unfold dict_get. refine (conj eq_refl (conj eq_refl _)).
  intros ->. split; reflexivity.
Qed.

Lemma start_language_defaults_witness :
  let body : option (gmap string string) := Some {[ "targetLang" := "hi" ]} in
  let data : gmap string string := default ∅ body in
  let s' := exec (start body [(0, quiet)]) initial_sys in
  source_lang (shared s') = Some (default "en" (data !! "sourceLang"))
  /\ target_lang (shared s') = Some (default "en" (data !! "targetLang"))
  /\ (body = None ->
      source_lang (shared s') = Some "en" /\ target_lang (shared s') = Some "en").
Proof.
  apply (start_language_defaults initial_sys (Some {[ "targetLang" := "hi" ]})
           [(0, quiet)]); reflexivity.
Defined.

(** X18: [stop] is idempotent: whatever the first call found, a second
    call right after it replies [{"message": "Not running"}] and changes
    nothing. *)
Theorem stop_twice (s : Sys) (before_set during_join : list (nat * World)) :
  ctl s = Idle ->
  exec (stop before_set during_join ++ stop [] []) s
  = exec (stop before_set during_join) s
  /\ replies (stop before_set during_join ++ stop [] []) s
     = (replies (stop before_set during_join) s
          ++ [Json [("message", JStr "Not running")] 200])%list.
Proof.
  intros Hc. rewrite exec_app, replies_app.
  destruct (stop_not_running (exec (stop before_set during_join) s) [] []
              (stop_returns_idle s before_set during_join Hc)
              (stop_ends_not_running s before_set during_join Hc)) as [-> ->].
  split; reflexivity.
Qed.

Lemma stop_twice_witness :
  exec (stop [] [(0, quiet)] ++ stop [] []) two_workers
  = exec (stop [] [(0, quiet)]) two_workers
  /\ replies (stop [] [(0, quiet)] ++ stop [] []) two_workers
     = (replies (stop [] [(0, quiet)]) two_workers
          ++ [Json [("message", JStr "Not running")] 200])%list.
Proof. apply (stop_twice two_workers [] [(0, quiet)]). vm_compute. reflexivity. Defined.

(** X19: a session can always be started again after [stop]: whether or
    not the old worker has returned, a [start] that follows a [stop] spawns
    a new worker at the next free index, with a new, unset event, and
    records both handles with [running] true. *)
Theorem restart_after_stop (s : Sys) (before_set during_join : list (nat * World))
    (body : option (gmap string string)) :
  ctl s = Idle ->
  let s' := exec (stop before_set during_join ++ start body []) s in
  running (shared s') = true
  /\ thread (shared s') = Some (length (pool s))
  /\ stop_event (shared s') = Some (length (events s))
  /\ translated_text (shared s') = "Starting speech recognition..."
  /\ length (pool s') = S (length (pool s))
  /\ (exists wk, pool s' !! length (pool s) = Some wk
                 /\ w_pc wk = Initializing /\ w_event wk = length (events s))
  /\ events s' !! length (events s) = Some false.
Proof.
  intros Hc. cbv zeta. rewrite exec_app.
  destruct (exec_spawns_nothing _ s (stop_not_start before_set during_join))
    as (Hlp & Hle & _).
  pose proof (stop_returns_idle s before_set during_join Hc) as Hc'.
  pose proof (stop_ends_not_running s before_set during_join Hc) as Hr'.
  set (s1 := exec (stop before_set during_join) s) in *.
  rewrite (start_spawning s1 body [] Hc' Hr').
  unfold start_locked. rewrite Hr'. simpl. rewrite Hlp, Hle, length_app. simpl.
  refine (conj eq_refl (conj eq_refl (conj eq_refl (conj eq_refl (conj _ (conj _ _)))))).
  - lia.
  - eexists. split; [rewrite <- Hlp; apply list_lookup_middle; reflexivity|].
    split; reflexivity.
  - rewrite <- Hle. apply list_lookup_middle. reflexivity.
Qed.

Lemma restart_after_stop_witness :
  let s := exec busy_session initial_sys in
  let s' := exec (stop [] [] ++ start None []) s in
  running (shared s') = true
  /\ thread (shared s') = Some (length (pool s))
  /\ stop_event (shared s') = Some (length (events s))
  /\ translated_text (shared s') = "Starting speech recognition..."
  /\ length (pool s') = S (length (pool s))
  /\ (exists wk, pool s' !! length (pool s) = Some wk
                 /\ w_pc wk = Initializing /\ w_event wk = length (events s))
  /\ events s' !! length (events s) = Some false.
Proof.
  apply (restart_after_stop (exec busy_session initial_sys) [] [] None).
  vm_compute. reflexivity.
Defined.
